(** * codeforces-scraper: the two HTML extractors of [scraper.py]

    A shallow embedding of [ContestHTMLParser] and [ProblemHTMLParser]
    together with the harvesting function [getExamples] and the
    fan-out loop at the end of the script.

    Conventions.
    - A Python [str] is a sequence of Unicode code points: [list Z].
      [py "div"] is the literal ['div'].
    - Python lists keep their order: [append] adds at the end,
      [stack[-1]] is the last element, [pop()] removes the last element.
    - [Node] objects are mutable and shared between the stack and the
      [children] list of their parent, so they live in a store and are
      named by reference (their allocation index).
    - A raised exception is the [Raise] outcome of the [result] monad.
    - The base class [html.parser.HTMLParser] belongs to the Python
      runtime. Its tokenizer is represented by the sequence of handler
      calls it makes ([token]); the tables of the runtime that the
      script consults ([html.entities.name2codepoint], the character
      classes of [re]) are section variables. *)

From Stdlib Require Import ZArith String Ascii.
From stdpp Require Import gmap list sorting.

Local Open Scope Z_scope.

(** * Part I: the model *)

(** ** Python values *)

Abbreviation str := (list Z).

Definition py (s : string) : str :=
  (λ a, Z.of_N (N_of_ascii a)) <$> list_ascii_of_string s.
Arguments py s%_string : simpl never.

Inductive exn :=
  | AssertionError (msg : option str)
  | AttributeError
  | IndexError
  | ValueError
  | OSError
  | RecursionError.

Inductive result (A : Type) :=
  | Ok (a : A)
  | Raise (e : exn).
Arguments Ok {A} a.
Arguments Raise {A} e.

(** Sequencing of statements that may raise: [x ← m; k]. *)
Global Instance result_bind : MBind result := λ A B k m,
  match m with
  | Ok a => k a
  | Raise e => Raise e
  end.

(** [dict(attrs)]: later pairs overwrite earlier ones. *)
Definition dict (attrs : list (str * option str)) : gmap str (option str) :=
  foldl (λ d kv, <[kv.1 := kv.2]> d) ∅ attrs.

(** [s.find(sub)]: lowest index at which [sub] occurs in [s], or [-1]. *)
Fixpoint find_from (i : Z) (s sub : str) : Z :=
  if bool_decide (sub `prefix_of` s) then i
  else match s with
       | [] => -1
       | _ :: s' => find_from (i + 1) s' sub
       end.

Definition find (s sub : str) : Z := find_from 0 s sub.

(** [chr(code)]: defined on [range(0x110000)]. *)
Definition chr (code : Z) : result str :=
  if bool_decide (0 ≤ code < 1114112) then Ok [code] else Raise ValueError.

(** Value of one digit in base 10 or 16. *)
Definition digit_value (base : Z) (c : Z) : option Z :=
  let v :=
    if bool_decide (48 ≤ c ≤ 57) then Some (c - 48)
    else if bool_decide (97 ≤ c ≤ 102) then Some (c - 87)
    else if bool_decide (65 ≤ c ≤ 70) then Some (c - 55)
    else None in
  match v with
  | Some d => if bool_decide (d < base) then Some d else None
  | None => None
  end.

Fixpoint int_digits (base : Z) (acc : Z) (s : str) : option Z :=
  match s with
  | [] => Some acc
  | c :: s' =>
      match digit_value base c with
      | Some d => int_digits base (acc * base + d) s'
      | None => None
      end
  end.

(** [int(s, base)] on the strings the tokenizer hands to
    [handle_charref]: a non-empty run of digits of the base; anything
    else is a [ValueError]. *)
Definition int (s : str) (base : Z) : result Z :=
  match s with
  | [] => Raise ValueError
  | _ => match int_digits base 0 s with
         | Some n => Ok n
         | None => Raise ValueError
         end
  end.

(** ** ProblemHTMLParser *)

Abbreviation ref := nat.

Record Node := mkNode {
  tag : str;
  attrs : gmap str (option str);
  children : list ref;
  data : str
}.

Record ProblemHTMLParser := mkProblemHTMLParser {
  store : list Node;
  stack : list ref;
  sample_input_nodes : list ref;
  recording : bool
}.

(** [ProblemHTMLParser.__init__] *)
Definition init : ProblemHTMLParser :=
  mkProblemHTMLParser [] [] [] false.

Definition append_data (s : str) (n : Node) : Node :=
  mkNode (tag n) (attrs n) (children n) (data n ++ s).

Definition append_child (c : ref) (n : Node) : Node :=
  mkNode (tag n) (attrs n) (children n ++ [c]) (data n).

(** Mutation of the object behind a reference. *)
Definition update (r : ref) (f : Node → Node) (self : ProblemHTMLParser)
  : ProblemHTMLParser :=
  mkProblemHTMLParser (alter f r (store self)) (stack self)
    (sample_input_nodes self) (recording self).

(** [tag == 'div' and attrs.get('class', '').find('sample') != -1];
    a [class] attribute without a value is [None], which has no [find]. *)
Definition sample_input_div (tag : str) (attrs : gmap str (option str))
  : result bool :=
  if bool_decide (tag = py "div") then
    match default (Some []) (attrs !! py "class") with
    | Some v => Ok (bool_decide (find v (py "sample") ≠ -1))
    | None => Raise AttributeError
    end
  else Ok false.

Definition handle_starttag (tag : str) (attrs : list (str * option str))
    (self : ProblemHTMLParser) : result ProblemHTMLParser :=
  let attrs := dict attrs in
  sample_input_div ← sample_input_div tag attrs;
  if recording self || sample_input_div then
    let node := length (store self) in
    let self := mkProblemHTMLParser (store self ++ [mkNode tag attrs [] []])
                  (stack self) (sample_input_nodes self) true in
    let self :=
      match last (stack self) with
      | Some top =>
          if bool_decide (tag = py "br")
          then update top (append_data [10]) self
          else update top (append_child node) self
      | None => self
      end in
    Ok (mkProblemHTMLParser (store self) (stack self ++ [node])
          (sample_input_nodes self) (recording self))
  else Ok self.

Definition handle_endtag (tag : str) (self : ProblemHTMLParser)
  : result ProblemHTMLParser :=
  if recording self then
    match last (stack self) with
    | None => Raise IndexError
    | Some node =>
        let stack' := removelast (stack self) in
        match stack' with
        | [] => Ok (mkProblemHTMLParser (store self) stack'
                      (sample_input_nodes self ++ [node]) false)
        | _ => Ok (mkProblemHTMLParser (store self) stack'
                     (sample_input_nodes self) (recording self))
        end
    end
  else Ok self.

Definition handle_data (data : str) (self : ProblemHTMLParser)
  : result ProblemHTMLParser :=
  if recording self then
    match last (stack self) with
    | None => Raise IndexError
    | Some top => Ok (update top (append_data data) self)
    end
  else Ok self.

Definition unrecognized (name : str) : str :=
  py "Unrecognized HTML entity &" ++ name ++ py ";".

(** The handler calls made by [HTMLParser.feed]. *)
Inductive token :=
  | StartTag (tag : str) (attrs : list (str * option str))
  | EndTag (tag : str)
  | Data (data : str)
  | EntityRef (name : str)
  | CharRef (name : str).

Section Handlers.

(** [html.entities.name2codepoint] *)
Variable name2codepoint : gmap str Z.

Definition handle_entityref (name : str) (self : ProblemHTMLParser)
  : result ProblemHTMLParser :=
  match name2codepoint !! name with
  | None => Raise (AssertionError (Some (unrecognized name)))
  | Some code => c ← chr code; handle_data c self
  end.

Definition handle_charref (name : str) (self : ProblemHTMLParser)
  : result ProblemHTMLParser :=
  match name with
  | [] => Raise IndexError
  | c0 :: rest =>
      if bool_decide (c0 = 120) then
        n ← int rest 16;
        c ← chr n;
        handle_data c self
      else
        n ← int name 10;
        c ← chr n;
        handle_data c self
  end.

Definition handle (t : token) (self : ProblemHTMLParser)
  : result ProblemHTMLParser :=
  match t with
  | StartTag tag attrs => handle_starttag tag attrs self
  | EndTag tag => handle_endtag tag self
  | Data d => handle_data d self
  | EntityRef name => handle_entityref name self
  | CharRef name => handle_charref name self
  end.

(** [parser.feed(html)], on the handler calls of the page: the first
    exception aborts the parse. *)
Fixpoint feed (toks : list token) (self : ProblemHTMLParser)
  : result ProblemHTMLParser :=
  match toks with
  | [] => Ok self
  | t :: toks' => self' ← handle t self; feed toks' self'
  end.

End Handlers.

(** [walkNodes]: the output list is threaded through the calls. The
    recursion follows references through the store, so it is driven by
    a fuel bound; [None] means the bound was too small. *)
Fixpoint walkNodes (fuel : nat) (store : list Node) (node : ref)
    (output_pre_datas : list str) : option (list str) :=
  match fuel with
  | O => None
  | S fuel =>
      n ← store !! node;
      if bool_decide (tag n = py "pre") then Some (output_pre_datas ++ [data n])
      else foldl (λ out child, out ← out; walkNodes fuel store child out)
             (Some output_pre_datas) (children n)
  end.

(** [range(0, n, 2)] *)
Definition range2 (n : nat) : list nat :=
  (λ k, 2 * k)%nat <$> seq 0 ((n + 1) / 2).

Definition Example : Type := str * str.

(** [(pre_datas[i], pre_datas[i+1])] *)
Definition pair_at (pre_datas : list str) (i : nat) : result Example :=
  match pre_datas !! i, pre_datas !! (i + 1)%nat with
  | Some a, Some b => Ok (a, b)
  | _, _ => Raise IndexError
  end.

Definition pair_up (pre_datas : list str) : result (list Example) :=
  foldl (λ acc i, examples ← acc; e ← pair_at pre_datas i; Ok (examples ++ [e]))
    (Ok []) (range2 (length pre_datas)).

(** [getExamples]; the walk gets as much fuel as there are nodes. *)
Definition getExamples (self : ProblemHTMLParser)
  : option (result (list Example)) :=
  match sample_input_nodes self with
  | [] => Some (Ok [])
  | root :: _ =>
      if bool_decide (length (sample_input_nodes self) = 1%nat) then
        pre_datas ← walkNodes (length (store self)) (store self) root [];
        if bool_decide ((length pre_datas `mod` 2)%nat = 0%nat)
        then Some (pair_up pre_datas)
        else Some (Raise (AssertionError None))
      else Some (Raise (AssertionError None))
  end.

(** ** What every reachable state satisfies

    [wf] collects what every state reached from [init] satisfies:
    the recording flag tells whether the stack is empty, every
    reference is allocated, and children are allocated after their
    parent. *)

Record wf (self : ProblemHTMLParser) : Prop := mk_wf {
  wf_recording : recording self = true ↔ stack self ≠ [];
  wf_stack : Forall (λ r, r < length (store self))%nat (stack self);
  wf_roots :
    Forall (λ r, r < length (store self))%nat (sample_input_nodes self);
  wf_children : ∀ r n, store self !! r = Some n →
    Forall (λ c, r < c < length (store self))%nat (children n)
}.

(** The store a start tag leaves behind when it is recorded. *)
Definition store_after_starttag (tag : str) (attrs : list (str * option str))
    (self : ProblemHTMLParser) : list Node :=
  let node := length (store self) in
  let store' := store self ++ [mkNode tag (dict attrs) [] []] in
  match last (stack self) with
  | Some top =>
      if bool_decide (tag = py "br")
      then alter (append_data [10]) top store'
      else alter (append_child node) top store'
  | None => store'
  end.

(** ** The tree behind a reference *)

#[local] Set Warnings "-register-all".
Inductive tree := T (t_tag : str) (t_data : str) (t_children : list tree).

Definition t_tag (t : tree) : str := match t with T tg _ _ => tg end.
Definition t_data (t : tree) : str := match t with T _ d _ => d end.

(** The object graph below [r], read off the store. *)
Fixpoint tree_of (fuel : nat) (store : list Node) (r : ref) : option tree :=
  match fuel with
  | O => None
  | S fuel =>
      n ← store !! r;
      ts ← mapM (tree_of fuel store) (children n);
      Some (T (tag n) (data n) ts)
  end.

Definition is_pre (t : tree) : bool := bool_decide (t_tag t = py "pre").

(** All nodes of a tree in document order (depth first, a node before
    its children, children left to right). *)
Fixpoint preorder (t : tree) : list tree :=
  match t with
  | T _ _ ch => t :: concat (map preorder ch)
  end.

(** The same listing, each node with a flag that tells whether one of
    its proper ancestors is a [pre] node. *)
Fixpoint flagged (below_pre : bool) (t : tree) : list (bool * tree) :=
  match t with
  | T tg _ ch =>
      (below_pre, t) ::
      concat (map (flagged (below_pre || bool_decide (tg = py "pre"))) ch)
  end.

(** Texts of the [pre] nodes that do not lie below another [pre] node. *)
Definition outer_pre_texts (t : tree) : list str :=
  (λ bt, t_data bt.2) <$>
    filter (λ bt, bt.1 = false ∧ is_pre bt.2 = true) (flagged false t).

(** Texts of every [pre] node. *)
Definition every_pre_text (t : tree) : list str :=
  t_data <$> filter (λ n, is_pre n = true) (preorder t).

(** What [walkNodes] appends, as a function of the tree. *)
Fixpoint walk_tree (t : tree) : list str :=
  match t with
  | T tg d ch =>
      if bool_decide (tg = py "pre") then [d]
      else concat (map walk_tree ch)
  end.

(** ** Pairing, as a function of the list *)

(** Consecutive pairs of a list: elements 0 and 1, 2 and 3, ... *)
Fixpoint pairs (l : list str) : list Example :=
  match l with
  | a :: b :: l' => (a, b) :: pairs l'
  | _ => []
  end.

(** The harvest as the specification words it: the texts of every
    [pre] node of the root's tree, paired up. *)
Definition getExamples_every_pre (self : ProblemHTMLParser)
  : option (result (list Example)) :=
  match sample_input_nodes self with
  | [] => Some (Ok [])
  | [root] =>
      t ← tree_of (length (store self)) (store self) root;
      Some (Ok (pairs (every_pre_text t)))
  | _ => Some (Raise (AssertionError None))
  end.

(** ** ContestHTMLParser *)

(** [a < b] or [a == b] on Python strings: lexicographic on code points. *)
Fixpoint str_le (a b : str) : bool :=
  match a, b with
  | [], _ => true
  | _ :: _, [] => false
  | x :: a', y :: b' =>
      if bool_decide (x < y) then true
      else if bool_decide (y < x) then false
      else str_le a' b'
  end.

(** The order [sorted] uses on strings. *)
Definition str_order : relation str := λ a b, str_le a b = true.

Global Instance str_order_dec : RelDecision str_order :=
  λ a b, decide (str_le a b = true).

(** [s] without its prefix [p], if it starts with [p]. *)
Fixpoint strip_prefix (p s : str) : option str :=
  match p, s with
  | [], _ => Some s
  | _ :: _, [] => None
  | c :: p', d :: s' =>
      if bool_decide (c = d) then strip_prefix p' s' else None
  end.

(** The longest prefix of [s] made of characters of class [cls]. *)
Fixpoint run (cls : Z → bool) (s : str) : str :=
  match s with
  | c :: s' => if cls c then c :: run cls s' else []
  | [] => []
  end.

(** The first result among the candidates [ks], in order. *)
Fixpoint first_some {A} (f : nat → option A) (ks : list nat) : option A :=
  match ks with
  | [] => None
  | k :: ks' => match f k with
                | Some a => Some a
                | None => first_some f ks'
                end
  end.

Module ContestHTMLParser.

Record state := mk { problems : gset str }.

(** [ContestHTMLParser.__init__] *)
Definition init : state := mk ∅.

Section Pattern.

(** The classes [\d] and [\w] of [re] on [str] patterns. *)
Variables is_digit is_word : Z → bool.

(** The rest of the pattern once [\d+] has taken [k] characters of
    [rest]: [/problem/(\w+)], the group being greedy. *)
Definition after_digits (rest : str) (k : nat) : option str :=
  rest' ← strip_prefix (py "/problem/") (drop k rest);
  let w := run is_word rest' in
  if bool_decide (w = []) then None else Some w.

(** [re.match] of [contest/\d+/problem/(\w+)] at the start of [s]:
    group 1 of the match. [\d+] first takes every digit and gives
    characters back one by one. *)
Definition match_here (s : str) : option str :=
  rest ← strip_prefix (py "contest/") s;
  first_some (after_digits rest)
    (reverse (seq 1 (length (run is_digit rest)))).

(** [self.re.search(href)]: the match at the leftmost position. *)
Fixpoint search (s : str) : option str :=
  match match_here s with
  | Some w => Some w
  | None => match s with
            | [] => None
            | _ :: s' => search s'
            end
  end.

Definition handle_starttag (tag : str) (attrs : list (str * option str))
    (self : state) : state :=
  if bool_decide (tag ≠ py "a") then self
  else
    match dict attrs !! py "href" with
    | Some (Some href) =>
        if bool_decide (href = []) then self
        else match search href with
             | Some group1 => mk ({[ group1 ]} ∪ problems self)
             | None => self
             end
    | _ => self
    end.

(** The other handlers are those of the base class, which do nothing. *)
Definition handle (t : token) (self : state) : state :=
  match t with
  | StartTag tag attrs => handle_starttag tag attrs self
  | _ => self
  end.

Definition feed (toks : list token) (self : state) : state :=
  foldl (λ self t, handle t self) self toks.

Definition getProblems (self : state) : list str :=
  merge_sort str_order (elements (problems self)).

End Pattern.

End ContestHTMLParser.

Section Matches.

Variables is_digit is_word : Z → bool.

(** The shape of a string in which the pattern matches with group [id]. *)
Definition matches_in (href id : str) : Prop :=
  ∃ before digits rest,
    href = before ++ py "contest/" ++ digits ++ py "/problem/" ++ id ++ rest ∧
    digits ≠ [] ∧ Forall (λ c, is_digit c = true) digits ∧
    id ≠ [] ∧ Forall (λ c, is_word c = true) id.

(** The links of a token stream: what [re.search] captures in the
    [href] of a start tag [a]. *)
Definition link_to (toks : list token) (id : str) : Prop :=
  ∃ attrs href,
    StartTag (py "a") attrs ∈ toks ∧
    dict attrs !! py "href" = Some (Some href) ∧
    ContestHTMLParser.search is_digit is_word href = Some id.

End Matches.

(** ** The script *)

(** [s.replace(old, new)] for a non-empty [old]: every occurrence, left
    to right, without overlap. [skip] counts the characters of a
    replaced occurrence that are still to be dropped. *)
Fixpoint replace_go (old new : str) (skip : nat) (s : str) : str :=
  match s with
  | [] => []
  | c :: s' =>
      match skip with
      | S k => replace_go old new k s'
      | O =>
          if bool_decide (old `prefix_of` s)
          then new ++ replace_go old new (length old - 1) s'
          else c :: replace_go old new 0 s'
      end
  end.

Definition replace (s old new : str) : str := replace_go old new 0 s.

(** What the script does to the outside world, in order. The printed
    lines are kept by content, not by wording. *)
Inductive event :=
  | RetrievingContest (contest_uri : str)
  | ContestOK (bytes : nat)
  | Found (count : nat)
  | Retrieving (problem_uri : str)
  | Retrieved (problem : str) (bytes : nat)
  | StderrDump (problem_html : str)
  | EnsureDir (problem_dir : str)
  | WriteInput (problem_dir : str) (i : nat) (text : str)
  | WriteOutput (problem_dir : str) (i : nat) (text : str)
  | Wrote (count : nat) (problem : str)
  | Traceback (e : exn).

(** A piece of the script: it extends the log of events and returns a
    value or raises. *)
Definition prog (A : Type) : Type := list event → list event * result A.

Definition emit (e : event) : prog unit := λ log, (log ++ [e], Ok tt).

Definition lift {A} (r : result A) : prog A := λ log, (log, r).

Global Instance prog_bind : MBind prog := λ A B k m log,
  match m log with
  | (log', Ok a) => k a log'
  | (log', Raise e) => (log', Raise e)
  end.

(** [try: body except: handler] *)
Definition try_except {A} (body : prog A) (handler : exn → prog A)
  : prog A :=
  λ log, match body log with
         | (log', Raise e) => handler e log'
         | returned => returned
         end.

(** [for x in l: body x] *)
Fixpoint for_each {A} (body : A → prog unit) (l : list A) : prog unit :=
  match l with
  | [] => lift (Ok tt)
  | x :: l' => _ ← body x; for_each body l'
  end.

(** [executor.submit(call)]: the call runs on a worker; what it raises
    is kept in the future that [submit] returns, and the script drops
    that future. The workers' events are logged in submission order,
    one of the orders the pool allows. *)
Definition submit (call : prog unit) : prog unit :=
  λ log, ((call log).1, Ok tt).

Section Script.

(** The runtime and the network: the entity table, the character
    classes of [re], [str.lower], the handler calls the tokenizer makes
    for a page text, and [urlopen(uri).read().decode('utf-8')]. *)
Variable name2codepoint : gmap str Z.
Variables is_digit is_word : Z → bool.
Variable lower : str → str.
Variable tokens : str → list token.
Variable urlopen : str → result str.

(** The patches for the malformed markup of the site; [34] is the
    double quote. *)
Definition patch (problem_html : str) : str :=
  let problem_html := replace problem_html (py "<p</p>") (py "<p></p>") in
  let problem_html :=
    replace problem_html (py "<ul</ul>") (py "<ul></ul>") in
  replace problem_html
    (py "<div class=" ++ [34] ++ py "sample-test" ++ [34] ++ py "<")
    (py "<div class=" ++ [34] ++ py "sample-test" ++ [34] ++ py "><").

(** [for i, example in enumerate(examples, i0)]: both files of each
    example. *)
Fixpoint write_examples (problem_dir : str) (i0 : nat)
    (examples : list Example) : prog unit :=
  match examples with
  | [] => lift (Ok tt)
  | example :: examples' =>
      _ ← emit (WriteInput problem_dir i0 example.1);
      _ ← emit (WriteOutput problem_dir i0 example.2);
      write_examples problem_dir (S i0) examples'
  end.

Definition download_problem (contest_uri problem : str) : prog unit :=
  let problem_uri := contest_uri ++ py "/problem/" ++ problem in
  _ ← emit (Retrieving problem_uri);
  problem_html ← lift (urlopen problem_uri);
  _ ← emit (Retrieved problem (length problem_html));
  let problem_html := patch problem_html in
  parser ← try_except
    (lift (feed name2codepoint (tokens problem_html) init))
    (λ e, _ ← emit (StderrDump problem_html); lift (Raise e));
  examples ← lift (default (Raise RecursionError) (getExamples parser));
  let problem_dir := lower problem in
  _ ← emit (EnsureDir problem_dir);
  _ ← write_examples problem_dir 1 examples;
  emit (Wrote (length examples) problem).

(** The script from the retrieval of the contest page on. *)
Definition scrape (contest_uri : str) : prog unit :=
  _ ← emit (RetrievingContest contest_uri);
  contest_html ← lift (urlopen contest_uri);
  _ ← emit (ContestOK (length contest_html));
  let parser :=
    ContestHTMLParser.feed is_digit is_word (tokens contest_html)
      ContestHTMLParser.init in
  let problems := ContestHTMLParser.getProblems parser in
  _ ← emit (Found (length problems));
  for_each (λ problem, submit (download_problem contest_uri problem))
    problems.

(** The run of the script: its events and its exit status. An
    exception that leaves the main thread is reported by the interpreter
    and makes the status 1. *)
Definition main (contest_uri : str) : list event * Z :=
  match scrape contest_uri [] with
  | (log, Ok _) => (log, 0)
  | (log, Raise e) => (log ++ [Traceback e], 1)
  end.

End Script.

(** ** Pages and states used as examples *)

(** The page of the specification's example, for texts [i] and [o]:
    [<div class="sample-tests"><div class="sample-test">
     <pre>i</pre><pre>o</pre></div></div>] *)
Definition sample_page (i o : str) : list token :=
  [ StartTag (py "div") [(py "class", Some (py "sample-tests"))];
    StartTag (py "div") [(py "class", Some (py "sample-test"))];
    StartTag (py "pre") []; Data i; EndTag (py "pre");
    StartTag (py "pre") []; Data o; EndTag (py "pre");
    EndTag (py "div"); EndTag (py "div") ].

(** A page on which a [pre] element contains further [pre] elements:
    [<div class="sample-test"><pre>a<pre>b</pre><pre>c</pre></pre>
     <pre>d</pre></div>] *)
Definition nested_pre_page : list token :=
  [ StartTag (py "div") [(py "class", Some (py "sample-test"))];
    StartTag (py "pre") []; Data (py "a");
    StartTag (py "pre") []; Data (py "b"); EndTag (py "pre");
    StartTag (py "pre") []; Data (py "c"); EndTag (py "pre");
    EndTag (py "pre");
    StartTag (py "pre") []; Data (py "d"); EndTag (py "pre");
    EndTag (py "div") ].

(** The state after the example page with texts ["1 2"] and ["3"]. *)
Definition sample_page_final : ProblemHTMLParser :=
  mkProblemHTMLParser
    [ mkNode (py "div") {[ py "class" := Some (py "sample-tests") ]} [1%nat] [];
      mkNode (py "div") {[ py "class" := Some (py "sample-test") ]}
        [2%nat; 3%nat] [];
      mkNode (py "pre") ∅ [] (py "1 2");
      mkNode (py "pre") ∅ [] (py "3") ]
    [] [0%nat] false.


(** A sample container with three [pre] blocks:
    [<div class="sample-test"><pre>1</pre><pre>2</pre><pre>3</pre></div>] *)
Definition three_pre_page : list token :=
  [ StartTag (py "div") [(py "class", Some (py "sample-test"))];
    StartTag (py "pre") []; Data (py "1"); EndTag (py "pre");
    StartTag (py "pre") []; Data (py "2"); EndTag (py "pre");
    StartTag (py "pre") []; Data (py "3"); EndTag (py "pre");
    EndTag (py "div") ].

(** The state after [<div class="sample-test">] alone. *)
Definition open_sample_div : ProblemHTMLParser :=
  mkProblemHTMLParser
    [ mkNode (py "div") {[ py "class" := Some (py "sample-test") ]} [] [] ]
    [0%nat] [] true.

(** The two entries of [html.entities.name2codepoint] that the
    example of the references uses. *)
Definition two_entities : gmap str Z :=
  {[ py "amp" := 38; py "lt" := 60 ]}.

(** The classes [\d] and [\w] restricted to ASCII. *)
Definition ascii_digit (c : Z) : bool := bool_decide (48 ≤ c ≤ 57).

Definition ascii_word (c : Z) : bool :=
  bool_decide (48 ≤ c ≤ 57 ∨ 65 ≤ c ≤ 90 ∨ 97 ≤ c ≤ 122 ∨ c = 95).

(** A contest page with three links to problems, two of them to the
    same one, and three start tags that are not such links. *)
Definition contest_page : list token :=
  [ StartTag (py "a") [(py "href", Some (py "/contest/1/problem/B?x=1"))];
    StartTag (py "a") [(py "href", Some (py "/contest/1/problem/A"))];
    StartTag (py "a") [(py "href", Some (py "/contest/1/problem/B"))];
    StartTag (py "a") [(py "href", Some (py "/contest/1/problems/C"))];
    StartTag (py "a") [(py "class", Some (py "/contest/1/problem/D"))];
    StartTag (py "b") [(py "href", Some (py "/contest/1/problem/E"))] ].

Definition failing_contest_uri : str := py "http://codeforces.com/contest/1".

Definition failing_contest_html : str :=
  py "<a href=/contest/1/problem/A>A</a><a href=/contest/1/problem/B>B</a>".

(** The page of problem A has three [pre] blocks, that of B two. *)
Definition failing_html_A : str :=
  py "<div class=sample-test><pre>1</pre><pre>2</pre><pre>3</pre></div>".

Definition failing_html_B : str :=
  py "<div class=sample-tests><div class=sample-test><pre>1 2</pre><pre>3</pre></div></div>".

Definition failing_urlopen (uri : str) : result str :=
  if bool_decide (uri = failing_contest_uri) then Ok failing_contest_html
  else if bool_decide (uri = failing_contest_uri ++ py "/problem/A")
  then Ok failing_html_A
  else if bool_decide (uri = failing_contest_uri ++ py "/problem/B")
  then Ok failing_html_B
  else Raise OSError.

(** The handler calls for the three pages. *)
Definition failing_tokens (html : str) : list token :=
  if bool_decide (html = failing_contest_html)
  then [ StartTag (py "a") [(py "href", Some (py "/contest/1/problem/A"))];
         Data (py "A"); EndTag (py "a");
         StartTag (py "a") [(py "href", Some (py "/contest/1/problem/B"))];
         Data (py "B"); EndTag (py "a") ]
  else if bool_decide (html = failing_html_A) then three_pre_page
  else if bool_decide (html = failing_html_B)
  then sample_page (py "1 2") (py "3")
  else [].

(** [str.lower] on the letters A to Z. *)
Definition ascii_lower (s : str) : str :=
  (λ c, if bool_decide (65 ≤ c ≤ 90) then c + 32 else c) <$> s.

(** ** Numerals *)

(** The value of the digits [ds], most significant first. *)
Definition numeral_value (base : Z) (ds : list Z) : Z :=
  foldl (λ acc d, acc * base + d) 0 ds.

(** The character of a decimal digit. *)
Definition decimal_char (d : Z) : Z := 48 + d.

(** [c] is a character of the hexadecimal digit [d]: [0-9], [a-f] or
    [A-F]. *)
Definition hex_char (d c : Z) : Prop :=
  (d < 10 ∧ c = 48 + d) ∨ (10 ≤ d ∧ (c = 87 + d ∨ c = 55 + d)).

(** ** Further pages used as examples *)

(** A page without any [div]: a paragraph, a link and a line break. *)
Definition plain_page : list token :=
  [ StartTag (py "p") []; Data (py "Problem A");
    StartTag (py "br") []; EndTag (py "br");
    StartTag (py "a") [(py "class", Some (py "sample"))]; EndTag (py "a");
    EndTag (py "p") ].

(** ** Reading the log *)

(** The two file events of each example, numbered from [i0] on. *)
Fixpoint file_events (problem_dir : str) (i0 : nat) (examples : list Example)
  : list event :=
  match examples with
  | [] => []
  | example :: examples' =>
      WriteInput problem_dir i0 example.1
      :: WriteOutput problem_dir i0 example.2
      :: file_events problem_dir (S i0) examples'
  end.

(** The addresses of the problem pages a log asks for, in order. *)
Definition retrievals (log : list event) : list str :=
  omap (λ e, match e with Retrieving uri => Some uri | _ => None end) log.

(** ** Well-nested markup *)

(** Markup in which every start tag has its end tag: text, and elements
    with a body. [<br/>] is the element [br] with an empty body. *)
Inductive html :=
  | Text (s : str)
  | Element (tag : str) (attrs : list (str * option str)) (body : list html).

(** The handler calls for a piece of markup. *)
Fixpoint events (h : html) : list token :=
  match h with
  | Text s => [Data s]
  | Element tag attrs body =>
      StartTag tag attrs :: concat (map events body) ++ [EndTag tag]
  end.

(** No start tag of the markup is a [div] whose [class] has no value. *)
Fixpoint accepted (h : html) : bool :=
  match h with
  | Text _ => true
  | Element tag attrs body =>
      match sample_input_div tag (dict attrs) with
      | Ok _ => forallb accepted body
      | Raise _ => false
      end
  end.

(** What an item of a body adds to the text of the enclosing node. *)
Definition item_text (h : html) : str :=
  match h with
  | Text s => s
  | Element tag _ _ => if bool_decide (tag = py "br") then [10] else []
  end.

Definition text_in (body : list html) : str := concat (item_text <$> body).

(** The node an item of a body adds below the enclosing node: none for
    text and for [br], and for any other element the node with its tag,
    the text of its body and the nodes of its body. *)
Fixpoint node_of (h : html) : option tree :=
  match h with
  | Text _ => None
  | Element tag _ body =>
      if bool_decide (tag = py "br") then None
      else Some (T tag (text_in body) (omap node_of body))
  end.

(** [self'] is [self] after markup that added the text [txt] and the
    nodes [trees] to the node [top] and left the rest as it was. *)
Definition builds (self self' : ProblemHTMLParser) (top : ref) (n : Node)
    (txt : str) (trees : list tree) : Prop :=
  stack self' = stack self ∧
  recording self' = recording self ∧
  sample_input_nodes self' = sample_input_nodes self ∧
  (length (store self) ≤ length (store self'))%nat ∧
  (∀ i, (i < length (store self))%nat → i ≠ top →
        store self' !! i = store self !! i) ∧
  ∃ refs,
    store self' !! top
    = Some (mkNode (tag n) (attrs n) (children n ++ refs) (data n ++ txt)) ∧
    Forall2 (λ r t, (length (store self) ≤ r)%nat ∧
                    tree_of (length (store self')) (store self') r = Some t)
      refs trees.

Section Reads.

Variable name2codepoint : gmap str Z.

(** What the markup [toks], read in a recording state with [top] on
    top of the stack, has to do. *)
Definition reads (toks : list token) (txt : str) (trees : list tree) : Prop :=
  ∀ self top n,
    wf self → recording self = true →
    last (stack self) = Some top → store self !! top = Some n →
    ∃ self', feed name2codepoint toks self = Ok self' ∧
             wf self' ∧ builds self self' top n txt trees.

End Reads.

(** The sample container of the specification's example as markup, with
    a line break in the input. *)
Definition sample_markup : html :=
  Element (py "div") [(py "class", Some (py "sample-tests"))]
    [ Element (py "div") [(py "class", Some (py "sample-test"))]
        [ Element (py "pre") []
            [Text (py "3"); Element (py "br") [] []; Text (py "1 2 3")];
          Element (py "pre") [] [Text (py "6")] ] ].

(** ** References in text, as the tokenizer delivers them *)

(** A handler call other than [handle_entityref] and [handle_charref].
    [ProblemHTMLParser()] passes no argument to [HTMLParser.__init__],
    so [convert_charrefs] keeps its default, true; [goahead] then hands
    the text between two tags to [handle_data] as a whole, after
    [html.unescape], and calls neither of the two reference handlers. *)
Definition not_reference (t : token) : bool :=
  match t with
  | EntityRef _ | CharRef _ => false
  | _ => true
  end.

(** The handler calls for the page
    [<div class="sample-tests"><div class="sample-test">
     <pre>&foo;1</pre><pre>2</pre></div></div>].
    [html.unescape] leaves a reference whose name it does not know as
    it stands, so the text of the first [pre] arrives as ["&foo;1"]. *)
Definition unknown_entity_page : list token :=
  sample_page (py "&foo;1") (py "2").

(** * Part II: properties *)

(** ** Reachable states *)

Lemma handle_starttag_eq tag attrs self :
  handle_starttag tag attrs self =
    b ← sample_input_div tag (dict attrs);
    if recording self || b then
      Ok (mkProblemHTMLParser (store_after_starttag tag attrs self)
            (stack self ++ [length (store self)])
            (sample_input_nodes self) true)
    else Ok self.
Proof.
  unfold handle_starttag, store_after_starttag.
  destruct (sample_input_div tag (dict attrs)) as [b|e]; simpl; [|done].
  destruct (recording self || b); [|done].
  destruct (last (stack self)) as [top|]; [|done].
  by destruct (bool_decide (tag = py "br")).
Qed.

Lemma length_store_after_starttag tag attrs self :
  length (store_after_starttag tag attrs self) = S (length (store self)).
Proof.
  unfold store_after_starttag.
  destruct (last (stack self)); [destruct (bool_decide _)|];
    rewrite ?length_alter, length_app; simpl; lia.
Qed.

Lemma wf_init : wf init.
Proof.
  split; simpl; try constructor; done.
Qed.

Lemma last_lt (l : list ref) (n : nat) (top : ref) :
  Forall (λ r, r < n)%nat l → last l = Some top → (top < n)%nat.
Proof.
  intros Hall [l' ->]%last_Some.
  apply Forall_app in Hall as [_ H]. by rewrite Forall_singleton in H.
Qed.

Lemma store_after_starttag_children tag attrs self r n :
  wf self → store_after_starttag tag attrs self !! r = Some n →
  Forall (λ c, r < c < S (length (store self)))%nat (children n).
Proof.
  intros [Hrec Hst Hro Hch]. unfold store_after_starttag.
  assert (Hnew : ∀ r n,
    (store self ++ [mkNode tag (dict attrs) [] []]) !! r = Some n →
    Forall (λ c, r < c < S (length (store self)))%nat (children n)).
  { intros r0 n0 [H|[_ H]]%lookup_app_Some.
    - eapply Forall_impl; [exact (Hch _ _ H)|]. simpl; lia.
    - destruct (r0 - length (store self))%nat; [|done].
      injection H as <-. constructor. }
  destruct (last (stack self)) as [top|] eqn:Htop; [|apply Hnew].
  pose proof (last_lt _ _ _ Hst Htop) as Hlt.
  destruct (bool_decide (tag = py "br"));
    (destruct (decide (r = top)) as [->|Hne];
     [rewrite list_lookup_alter_eq|by rewrite list_lookup_alter_ne; auto]);
    destruct (_ !! top) as [m|] eqn:Hm; simpl; intros [= <-];
    specialize (Hnew _ _ Hm); simpl; [done|].
  apply Forall_app; split; [done|]. repeat constructor; lia.
Qed.

Lemma wf_handle_starttag tag attrs self self' :
  wf self → handle_starttag tag attrs self = Ok self' → wf self'.
Proof.
  intros Hwf. pose proof Hwf as [Hrec Hst Hro Hch]. rewrite handle_starttag_eq.
  destruct (sample_input_div tag (dict attrs)) as [b|e]; simpl; [|done].
  destruct (recording self || b); intros [= <-]; [|by split].
  split; simpl; rewrite ?length_store_after_starttag.
  - split; [intros _|done]. by intros [_ ?]%app_eq_nil.
  - apply Forall_app; split; [|repeat constructor; lia].
    eapply Forall_impl; [exact Hst|]. simpl; lia.
  - eapply Forall_impl; [exact Hro|]. simpl; lia.
  - intros r n. by apply store_after_starttag_children.
Qed.

Lemma wf_update r f self :
  (∀ n, children (f n) = children n) → wf self → wf (update r f self).
Proof.
  intros Hf [Hrec Hst Hro Hch].
  split; simpl; rewrite ?length_alter; try done.
  intros r0 n0. destruct (decide (r0 = r)) as [->|Hne].
  - rewrite list_lookup_alter_eq.
    destruct (store self !! r) as [m|] eqn:Hm; simpl; intros [= <-].
    rewrite Hf. eauto.
  - rewrite list_lookup_alter_ne by done. eauto.
Qed.

Lemma wf_handle_data d self self' :
  wf self → handle_data d self = Ok self' → wf self'.
Proof.
  intros Hwf. unfold handle_data.
  destruct (recording self); [|by intros [= <-]].
  destruct (last (stack self)) as [top|]; [|done].
  intros [= <-]. by apply wf_update.
Qed.

Lemma wf_handle_endtag tag self self' :
  wf self → handle_endtag tag self = Ok self' → wf self'.
Proof.
  intros Hwf. pose proof Hwf as [Hrec Hst Hro Hch]. unfold handle_endtag.
  destruct (recording self); [|by intros [= <-]].
  destruct (last (stack self)) as [node|] eqn:Hlast; [|done].
  apply last_Some in Hlast as [l Hl]. rewrite Hl in *.
  rewrite removelast_last.
  apply Forall_app in Hst as [Hl1 Hl2]. rewrite Forall_singleton in Hl2.
  destruct l as [|x l]; intros [= <-]; split; simpl; try done.
  apply Forall_app; split; [done|]. by constructor.
Qed.

Section Reachable.

Variable name2codepoint : gmap str Z.

Lemma wf_handle t self self' :
  wf self → handle name2codepoint t self = Ok self' → wf self'.
Proof.
  intros Hwf. destruct t as [tag attrs|tag|d|name|name]; simpl.
  - by apply wf_handle_starttag.
  - by apply wf_handle_endtag.
  - by apply wf_handle_data.
  - unfold handle_entityref. destruct (name2codepoint !! name); [|done].
    destruct (chr _); simpl; [|done]. by apply wf_handle_data.
  - unfold handle_charref. destruct name as [|c0 rest]; [done|].
    destruct (bool_decide (c0 = 120));
      (destruct (int _ _); simpl; [|done]);
      (destruct (chr _); simpl; [|done]); by apply wf_handle_data.
Qed.

Lemma wf_feed toks self self' :
  wf self → feed name2codepoint toks self = Ok self' → wf self'.
Proof.
  revert self. induction toks as [|t toks IH]; intros self Hwf; simpl.
  - by intros [= <-].
  - destruct (handle name2codepoint t self) as [self1|e] eqn:Ht; simpl; [|done].
    apply IH. by eapply wf_handle.
Qed.

Lemma wf_reachable toks self :
  feed name2codepoint toks init = Ok self → wf self.
Proof. apply wf_feed, wf_init. Qed.

End Reachable.

(** ** The walk and the tree *)

Lemma tree_rect' (P : tree → Prop) :
  (∀ tg d ch, Forall P ch → P (T tg d ch)) → ∀ t, P t.
Proof.
  intros H. fix IH 1. intros [tg d ch]. apply H.
  induction ch as [|c ch IHch]; constructor; [apply IH|apply IHch].
Qed.

Lemma flagged_preorder b t : (flagged b t).*2 = preorder t.
Proof.
  revert b. induction t as [tg d ch IH] using tree_rect'; intros b; simpl.
  f_equal. generalize (b || bool_decide (tg = py "pre")). intros b'.
  induction IH as [|c ch Hc _ IHch]; simpl; [done|].
  rewrite fmap_app, Hc. f_equal. apply IHch.
Qed.

Lemma flagged_true_filter t :
  filter (λ bt : bool * tree, bt.1 = false ∧ is_pre bt.2 = true)
    (flagged true t) = [].
Proof.
  induction t as [tg d ch IH] using tree_rect'; simpl.
  rewrite filter_cons_False by (by intros [? _]).
  induction IH as [|c ch Hc _ IHch]; simpl; [done|].
  rewrite filter_app, Hc. apply IHch.
Qed.

Lemma flagged_true_filter_concat ch :
  filter (λ bt : bool * tree, bt.1 = false ∧ is_pre bt.2 = true)
    (concat (map (flagged true) ch)) = [].
Proof.
  induction ch as [|c ch IHch]; simpl; [done|].
  by rewrite filter_app, flagged_true_filter, IHch.
Qed.

Lemma walk_tree_outer t : walk_tree t = outer_pre_texts t.
Proof.
  unfold outer_pre_texts.
  induction t as [tg d ch IH] using tree_rect'; simpl.
  destruct (bool_decide (tg = py "pre")) eqn:Hpre; simpl.
  - rewrite filter_cons_True by (unfold is_pre; simpl; by rewrite Hpre).
    by rewrite flagged_true_filter_concat.
  - rewrite filter_cons_False
      by (unfold is_pre; simpl; rewrite Hpre; by intros [_ ?]).
    induction IH as [|c ch Hc _ IHch]; simpl; [done|].
    rewrite filter_app, fmap_app, Hc. f_equal. apply IHch.
Qed.

Lemma walkNodes_tree fuel store r t out :
  tree_of fuel store r = Some t →
  walkNodes fuel store r out = Some (out ++ walk_tree t).
Proof.
  revert r t out. induction fuel as [|fuel IH]; intros r t out; simpl; [done|].
  destruct (store !! r) as [n|]; simpl; [|done].
  destruct (mapM (tree_of fuel store) (children n)) as [ts|] eqn:Hts;
    simpl; [|done].
  intros [= <-]; simpl.
  destruct (bool_decide (tag n = py "pre")); [done|].
  apply mapM_Some in Hts. revert out.
  induction Hts as [|c t cs ts Hc _ IHts]; intros out; simpl.
  - by rewrite app_nil_r.
  - rewrite (IH _ _ _ Hc). rewrite IHts. by rewrite app_assoc.
Qed.

Lemma tree_of_total store fuel r :
  (∀ r n, store !! r = Some n →
     Forall (λ c, r < c < length store)%nat (children n)) →
  (r < length store)%nat → (length store - r ≤ fuel)%nat →
  is_Some (tree_of fuel store r).
Proof.
  intros Hch. revert r. induction fuel as [|fuel IH]; intros r Hr Hfuel;
    [lia|]. simpl.
  destruct (lookup_lt_is_Some_2 _ _ Hr) as [n Hn]. rewrite Hn. simpl.
  assert (is_Some (mapM (tree_of fuel store) (children n))) as [ts ->];
    [|by eexists].
  specialize (Hch _ _ Hn).
  induction Hch as [|c cs Hc _ IHcs]; simpl; [by eexists|].
  destruct (IH c) as [t ->]; [lia..|]. simpl.
  destruct IHcs as [ts ->]. by eexists.
Qed.

(** ** Pairing *)

Lemma list_pair_ind (P : list str → Prop) :
  P [] → (∀ a, P [a]) → (∀ a b l, P l → P (a :: b :: l)) → ∀ l, P l.
Proof.
  intros H0 H1 H2. fix IH 1. intros [|a [|b l]]; [done..|].
  apply H2, IH.
Qed.

Lemma length_pairs l : length (pairs l) = (length l / 2)%nat.
Proof.
  induction l as [|a|a b l IH] using list_pair_ind; [done..|].
  simpl length. rewrite IH.
  change (S (S (length l))) with (1 * 2 + length l)%nat.
  by rewrite Nat.div_add_l.
Qed.

Lemma lookup_pairs l k a b :
  pairs l !! k = Some (a, b) ↔
  l !! (2 * k)%nat = Some a ∧ l !! (2 * k + 1)%nat = Some b.
Proof.
  revert k. induction l as [|a0|a0 b0 l IH] using list_pair_ind; intros k.
  - simpl. rewrite !lookup_nil. split; [done|by intros [? _]].
  - simpl. rewrite lookup_nil. split; [done|].
    intros [_ H]. by rewrite lookup_ge_None_2 in H by (simpl; lia).
  - destruct k as [|k]; simpl.
    + split; [by intros [= -> ->]|by intros [[= ->] [= ->]]].
    + replace (k + S (k + 0))%nat with (S (2 * k)) by lia.
      replace (k + S (k + 0) + 1)%nat with (S (2 * k + 1)) by lia.
      simpl. apply IH.
Qed.

Lemma pair_up_from l m s acc :
  length l = (2 * (s + m))%nat →
  foldl (λ acc i, examples ← acc; e ← pair_at l i; Ok (examples ++ [e]))
    (Ok acc) ((λ k, 2 * k)%nat <$> seq s m)
  = Ok (acc ++ pairs (drop (2 * s) l)).
Proof.
  revert s acc. induction m as [|m IH]; intros s acc Hlen.
  - simpl. rewrite drop_ge by lia. by rewrite app_nil_r.
  - assert (is_Some (l !! (2 * s)%nat)) as [a Ha]
      by (apply lookup_lt_is_Some_2; lia).
    assert (is_Some (l !! (2 * s + 1)%nat)) as [b Hb]
      by (apply lookup_lt_is_Some_2; lia).
    assert (Hstep : ∀ F : result (list Example) → nat → result (list Example),
      foldl F (Ok acc) ((λ k, 2 * k)%nat <$> seq s (S m)) =
      foldl F (F (Ok acc) (2 * s)%nat) ((λ k, 2 * k)%nat <$> seq (S s) m))
      by done.
    rewrite Hstep. unfold pair_at at 2. rewrite Ha, Hb. cbn [mbind result_bind].
    replace (2 * s + 1)%nat with (S (2 * s)) in Hb by lia.
    etrans; [apply (IH (S s) (acc ++ [(a, b)])); lia|].
    rewrite <- app_assoc. do 2 f_equal.
    rewrite (drop_S _ _ _ Ha), (drop_S _ _ _ Hb).
    by replace (2 * S s)%nat with (S (S (2 * s))) by lia.
Qed.

Lemma pair_up_even l :
  (length l `mod` 2 = 0)%nat → pair_up l = Ok (pairs l).
Proof.
  intros Heven. unfold pair_up, range2.
  pose proof (Nat.div_mod_eq (length l) 2) as Hdiv.
  replace ((length l + 1) / 2)%nat with (length l / 2)%nat.
  - rewrite (pair_up_from l _ 0 []) by lia. done.
  - replace (length l + 1)%nat with (1 + (length l / 2) * 2)%nat at 1 by lia.
    by rewrite Nat.div_add.
Qed.

(** ** Harvesting from a reachable state *)

Lemma getExamples_single self root :
  wf self → sample_input_nodes self = [root] →
  ∃ t, tree_of (length (store self)) (store self) root = Some t ∧
       walkNodes (length (store self)) (store self) root [] =
         Some (outer_pre_texts t) ∧
       getExamples self =
         Some (if bool_decide ((length (outer_pre_texts t) `mod` 2)%nat = 0%nat)
               then Ok (pairs (outer_pre_texts t))
               else Raise (AssertionError None)).
Proof.
  intros [_ _ Hro Hch] Hroot. rewrite Hroot in Hro.
  rewrite Forall_singleton in Hro.
  destruct (tree_of_total (store self) (length (store self)) root)
    as [t Ht]; [done|done|lia|].
  pose proof (walkNodes_tree _ _ _ _ [] Ht) as Hwalk.
  rewrite walk_tree_outer in Hwalk. simpl in Hwalk.
  exists t. split; [done|]. split; [done|].
  unfold getExamples. rewrite Hroot. simpl. rewrite Hwalk. simpl.
  case_bool_decide as Heven; [|done].
  by rewrite pair_up_even.
Qed.

Lemma getExamples_many self r1 r2 rest :
  sample_input_nodes self = r1 :: r2 :: rest →
  getExamples self = Some (Raise (AssertionError None)).
Proof. intros H. unfold getExamples. by rewrite H. Qed.

Lemma sample_page_run name2codepoint i o :
  match feed name2codepoint (sample_page i o) init with
  | Ok self => getExamples self = Some (Ok [(i, o)])
  | Raise _ => False
  end.
Proof. vm_compute. reflexivity. Qed.

Lemma sample_page_examples name2codepoint i o :
  ∃ self, feed name2codepoint (sample_page i o) init = Ok self ∧
          getExamples self = Some (Ok [(i, o)]).
Proof.
  pose proof (sample_page_run name2codepoint i o) as H.
  destruct (feed name2codepoint (sample_page i o) init) as [self|e];
    [by exists self|done].
Qed.

(** C1 (as amended): from the state a parse leaves behind, [getExamples]
    returns the empty list when there is no completed root; with exactly
    one root it walks the root's tree in document order and collects the
    text of every [pre] node that does not lie below another [pre] node
    (the walk does not enter a [pre] node); when that sequence has even
    length it returns as many examples as half that length, the [k]-th
    made of elements [2k] (input) and [2k+1] (output); and on the page
    [<div class="sample-tests"><div class="sample-test"><pre>i</pre>
    <pre>o</pre></div></div>] it returns exactly [(i, o)]. *)
Theorem getExamples_pairs_outer_pre_texts name2codepoint toks self :
  feed name2codepoint toks init = Ok self →
  (sample_input_nodes self = [] → getExamples self = Some (Ok [])) ∧
  (∀ root, sample_input_nodes self = [root] →
     ∃ t, tree_of (length (store self)) (store self) root = Some t ∧
       ((length (outer_pre_texts t) `mod` 2)%nat = 0%nat →
        ∃ examples, getExamples self = Some (Ok examples) ∧
          length examples = (length (outer_pre_texts t) / 2)%nat ∧
          ∀ k a b, examples !! k = Some (a, b) ↔
            outer_pre_texts t !! (2 * k)%nat = Some a ∧
            outer_pre_texts t !! (2 * k + 1)%nat = Some b)) ∧
  (∀ i o, ∃ self', feed name2codepoint (sample_page i o) init = Ok self' ∧
                   getExamples self' = Some (Ok [(i, o)])).
Proof.
  intros Hfeed. apply wf_reachable in Hfeed as Hwf.
  split; [|split].
  - intros Hnil. unfold getExamples. by rewrite Hnil.
  - intros root Hroot.
    destruct (getExamples_single self root Hwf Hroot) as (t & Ht & _ & Hget).
    exists t. split; [done|]. intros Heven.
    rewrite bool_decide_eq_true_2 in Hget by done.
    exists (pairs (outer_pre_texts t)).
    split; [done|]. split; [apply length_pairs|]. intros k a b.
    apply lookup_pairs.
  - intros i o. apply sample_page_examples.
Qed.

Lemma getExamples_pairs_outer_pre_texts_witness :
  feed ∅ (sample_page (py "1 2") (py "3")) init = Ok sample_page_final ∧
  getExamples sample_page_final = Some (Ok [(py "1 2", py "3")]).
Proof.
  assert (H : feed ∅ (sample_page (py "1 2") (py "3")) init
              = Ok sample_page_final) by (vm_compute; reflexivity).
  split; [exact H|].
  destruct (getExamples_pairs_outer_pre_texts ∅ _ _ H) as (_ & Hone & _).
  destruct (Hone 0%nat eq_refl) as (t & Ht & Hex).
  vm_compute in Ht. injection Ht as <-.
  lapply Hex; [clear Hex; intros (examples & Hget & Hlen & Hk)
              |vm_compute; reflexivity].
  rewrite Hget. vm_compute in Hlen.
  destruct examples as [|[a b] [|? ?]];
    [discriminate Hlen| |discriminate Hlen].
  destruct (proj1 (Hk 0%nat a b) eq_refl) as [Ha Hb].
  vm_compute in Ha, Hb.
  injection Ha as <-. injection Hb as <-.
  reflexivity.
Defined.

(** C1 (as stated) fails on [nested_pre_page]: the tree has four [pre]
    nodes with texts a, b, c, d in document order, so pairing every
    [pre] text gives (a, b), (c, d); [walkNodes] stops at the outer
    [pre] node and [getExamples] returns the single example (a, d). *)
Lemma getExamples_every_pre_counterexample :
  ∃ self,
    feed ∅ nested_pre_page init = Ok self ∧
    getExamples_every_pre self =
      Some (Ok [(py "a", py "b"); (py "c", py "d")]) ∧
    getExamples self = Some (Ok [(py "a", py "d")]) ∧
    getExamples self ≠ getExamples_every_pre self.
Proof.
  assert (H : match feed ∅ nested_pre_page init with
              | Ok self =>
                  getExamples_every_pre self =
                    Some (Ok [(py "a", py "b"); (py "c", py "d")]) ∧
                  getExamples self = Some (Ok [(py "a", py "d")])
              | Raise _ => False
              end) by (vm_compute; split; reflexivity).
  destruct (feed ∅ nested_pre_page init) as [self|e]; [|destruct H].
  exists self. destruct H as [H1 H2]. repeat split; [exact H1|exact H2|].
  rewrite H1, H2. intros Heq. inversion Heq.
Qed.





(** ** Start tags *)

Lemma open_sample_div_reached :
  feed ∅ [StartTag (py "div") [(py "class", Some (py "sample-test"))]] init
  = Ok open_sample_div.
Proof. vm_compute. reflexivity. Qed.

(** C2 (as stated) fails: a [br] start tag met while recording, with
    the sample [div] on top of the stack, leaves the [div] without
    children and with a newline as text, but the [br] node is pushed:
    the stack grows from [[0]] to [[0; 1]]. *)
Lemma handle_starttag_br_pushes :
  ∃ self',
    handle_starttag (py "br") [] open_sample_div = Ok self' ∧
    recording open_sample_div = true ∧
    stack open_sample_div = [0%nat] ∧
    stack self' = [0%nat; 1%nat] ∧
    stack self' ≠ stack open_sample_div ∧
    (children <$> store self' !! 0%nat) = Some [] ∧
    (data <$> store self' !! 0%nat) = Some [10].
Proof.
  assert (H : match handle_starttag (py "br") [] open_sample_div with
              | Ok self' =>
                  stack self' = [0%nat; 1%nat] ∧
                  (children <$> store self' !! 0%nat) = Some [] ∧
                  (data <$> store self' !! 0%nat) = Some [10]
              | Raise _ => False
              end) by (vm_compute; repeat split; reflexivity).
  destruct (handle_starttag (py "br") [] open_sample_div) as [self'|e];
    [|destruct H].
  exists self'. destruct H as (H1 & H2 & H3).
  repeat split; [exact H1| |exact H2|exact H3].
  rewrite H1. intros Heq. inversion Heq.
Qed.

Lemma starttag_while_recording tag attrs self top n b :
  recording self = true →
  last (stack self) = Some top →
  store self !! top = Some n →
  sample_input_div tag (dict attrs) = Ok b →
  ∃ self', handle_starttag tag attrs self = Ok self' ∧
    let node := length (store self) in
    stack self' = stack self ++ [node] ∧
    recording self' = true ∧
    sample_input_nodes self' = sample_input_nodes self ∧
    length (store self') = S node ∧
    store self' !! node = Some (mkNode tag (dict attrs) [] []) ∧
    store self' !! top =
      Some (if bool_decide (tag = py "br")
            then append_data [10] n
            else append_child node n) ∧
    (∀ r, r ≠ top → r ≠ node → store self' !! r = store self !! r).
Proof.
  intros Hrec Htop Hn Hb. rewrite handle_starttag_eq, Hb. simpl.
  rewrite Hrec. simpl. eexists. split; [reflexivity|]. simpl.
  pose proof (lookup_lt_Some _ _ _ Hn) as Hlt.
  split; [done|]. split; [done|]. split; [done|].
  split; [apply length_store_after_starttag|].
  unfold store_after_starttag. rewrite Htop.
  assert (Hnew : (store self ++ [mkNode tag (dict attrs) [] []])
                   !! length (store self)
                 = Some (mkNode tag (dict attrs) [] [])).
  { rewrite lookup_app_r by lia. by rewrite Nat.sub_diag. }
  assert (Hold : (store self ++ [mkNode tag (dict attrs) [] []]) !! top
                 = Some n) by (by rewrite lookup_app_l).
  destruct (bool_decide (tag = py "br")).
  - split; [rewrite list_lookup_alter_ne by lia; exact Hnew|].
    split; [by rewrite list_lookup_alter_eq, Hold|].
    intros r Hr1 Hr2. rewrite list_lookup_alter_ne by done.
    destruct (decide (r < length (store self))%nat).
    + by rewrite lookup_app_l.
    + rewrite !lookup_ge_None_2; [done|lia|rewrite length_app; simpl; lia].
  - split; [rewrite list_lookup_alter_ne by lia; exact Hnew|].
    split; [by rewrite list_lookup_alter_eq, Hold|].
    intros r Hr1 Hr2. rewrite list_lookup_alter_ne by done.
    destruct (decide (r < length (store self))%nat).
    + by rewrite lookup_app_l.
    + rewrite !lookup_ge_None_2; [done|lia|rewrite length_app; simpl; lia].
Qed.

(** C2 (as amended): while recording with a node [top] on top of the
    stack, a start tag whose sample test does not raise allocates a new
    node and pushes it, whatever the tag, [br] included. For [br] a
    newline is appended to the text of [top] and [top] gets no child; for
    every other tag the new node becomes the last child of [top] and the
    text of [top] is unchanged. No other node changes. *)
Theorem handle_starttag_recording tag attrs self top n b :
  recording self = true →
  last (stack self) = Some top →
  store self !! top = Some n →
  sample_input_div tag (dict attrs) = Ok b →
  ∃ self', handle_starttag tag attrs self = Ok self' ∧
    let node := length (store self) in
    stack self' = stack self ++ [node] ∧
    recording self' = true ∧
    sample_input_nodes self' = sample_input_nodes self ∧
    length (store self') = S node ∧
    store self' !! node = Some (mkNode tag (dict attrs) [] []) ∧
    store self' !! top =
      Some (if bool_decide (tag = py "br")
            then append_data [10] n
            else append_child node n) ∧
    (∀ r, r ≠ top → r ≠ node → store self' !! r = store self !! r).
Proof. apply starttag_while_recording. Qed.

Lemma handle_starttag_recording_witness :
  ∃ self', handle_starttag (py "pre") [] open_sample_div = Ok self' ∧
    stack self' = [0%nat; 1%nat] ∧
    store self' !! 1%nat = Some (mkNode (py "pre") ∅ [] []) ∧
    (children <$> store self' !! 0%nat) = Some [1%nat].
Proof.
  destruct (handle_starttag_recording (py "pre") [] open_sample_div 0%nat
              (mkNode (py "div") {[ py "class" := Some (py "sample-test") ]}
                 [] []) false)
    as (self' & Hrun & Hstack & _ & _ & _ & Hnode & Htop & _);
    [reflexivity..|].
  exists self'. split; [exact Hrun|]. split; [exact Hstack|].
  split; [exact Hnode|]. rewrite Htop. reflexivity.
Defined.

(** A [br] start tag followed by its end tag, as the tokenizer reports
    [<br/>], leaves the stack as it was and the newline in the text. *)
Lemma br_startend_balanced name2codepoint attrs self top n :
  recording self = true →
  last (stack self) = Some top →
  store self !! top = Some n →
  ∃ self',
    feed name2codepoint [StartTag (py "br") attrs; EndTag (py "br")] self
      = Ok self' ∧
    stack self' = stack self ∧
    recording self' = true ∧
    sample_input_nodes self' = sample_input_nodes self ∧
    store self' !! top = Some (append_data [10] n).
Proof.
  intros Hrec Htop Hn.
  destruct (starttag_while_recording (py "br") attrs self top n false
              Hrec Htop Hn eq_refl)
    as (self1 & Hstart & Hstack & Hrec1 & Hroots & _ & _ & Hstore & _).
  cbn [feed handle]. rewrite Hstart. cbn [mbind result_bind].
  unfold handle_endtag. rewrite Hrec1, Hstack, last_snoc, removelast_last.
  apply last_Some in Htop as [below Hbelow]. rewrite Hbelow.
  destruct below; (eexists; split; [reflexivity|]); cbn [stack recording
    sample_input_nodes store]; by rewrite ?Hrec1, ?Hroots, ?Hstore.
Qed.

(** ** End tags *)

(** C4: in a state reached by a parse, an end tag met while recording
    pops the top of the stack whatever its name; when that empties the
    stack the popped node is appended to the completed roots and
    recording stops, otherwise roots and flag stay; an end tag met while
    not recording changes nothing. *)
Theorem handle_endtag_pops name2codepoint toks self tag :
  feed name2codepoint toks init = Ok self →
  (if recording self then
     ∃ below node, stack self = below ++ [node] ∧
       handle_endtag tag self =
         Ok (mkProblemHTMLParser (store self) below
               (match below with
                | [] => sample_input_nodes self ++ [node]
                | _ => sample_input_nodes self
                end)
               (match below with [] => false | _ => true end))
   else handle_endtag tag self = Ok self) ∧
  (∀ tag', handle_endtag tag' self = handle_endtag tag self).
Proof.
  intros Hfeed. apply wf_reachable in Hfeed as [Hrec _ _ _].
  split; [|done].
  unfold handle_endtag. destruct (recording self) eqn:Hr; [|done].
  destruct (last (stack self)) as [node|] eqn:Hlast.
  - apply last_Some in Hlast as [below Hbelow].
    exists below, node. split; [done|].
    rewrite Hbelow, removelast_last. by destruct below.
  - apply last_None in Hlast. by apply Hrec in Hlast.
Qed.

Lemma handle_endtag_pops_witness :
  handle_endtag (py "span") open_sample_div =
    Ok (mkProblemHTMLParser (store open_sample_div) [] [0%nat] false).
Proof.
  destruct (handle_endtag_pops ∅ _ _ (py "span") open_sample_div_reached)
    as [(below & node & Hstack & Hrun) _].
  rewrite Hrun. change ([0%nat] = below ++ [node]) in Hstack.
  destruct below as [|x [|y below]];
    [injection Hstack as <-; reflexivity|discriminate Hstack..].
Defined.

(** ** The recording invariant *)

(** C9: in every state reached from the initial one, if the recording
    flag is set the stack is not empty; so [handle_data], which reads
    [stack[-1]], always returns a state. *)
Theorem recording_stack_nonempty name2codepoint toks self :
  feed name2codepoint toks init = Ok self →
  (recording self = true → stack self ≠ []) ∧
  (∀ d, ∃ self', handle_data d self = Ok self').
Proof.
  intros Hfeed. apply wf_reachable in Hfeed as [Hrec _ _ _].
  split; [apply Hrec|]. intros d. unfold handle_data.
  destruct (recording self); [|by eexists].
  destruct (last (stack self)) eqn:Hlast; [by eexists|].
  apply last_None in Hlast. by apply Hrec in Hlast.
Qed.

Lemma recording_stack_nonempty_witness :
  stack open_sample_div ≠ [] ∧
  ∃ self', handle_data (py "1 2") open_sample_div = Ok self'.
Proof.
  destruct (recording_stack_nonempty ∅ _ _ open_sample_div_reached)
    as [Hne Hdata].
  split; [apply Hne; reflexivity|apply Hdata].
Defined.

(** ** Entity and character references *)

Lemma feed_app name2codepoint toks1 toks2 self :
  feed name2codepoint (toks1 ++ toks2) self =
    self' ← feed name2codepoint toks1 self; feed name2codepoint toks2 self'.
Proof.
  revert self. induction toks1 as [|t toks1 IH]; intros self; simpl; [done|].
  destruct (handle name2codepoint t self); simpl; [apply IH|done].
Qed.

Lemma handle_data_recording d self top :
  recording self = true → last (stack self) = Some top →
  handle_data d self = Ok (update top (append_data d) self).
Proof. intros Hrec Htop. unfold handle_data. by rewrite Hrec, Htop. Qed.

Lemma chr_amp : chr 38 = Ok (py "&").
Proof. reflexivity. Qed.
Lemma chr_lt : chr 60 = Ok (py "<").
Proof. reflexivity. Qed.
Lemma chr_A : chr 65 = Ok (py "A").
Proof. reflexivity. Qed.
Lemma int_65 : int (py "65") 10 = Ok 65.
Proof. reflexivity. Qed.
Lemma int_x41 : int (py "41") 16 = Ok 65.
Proof. reflexivity. Qed.

(** C6: while recording with [top] on top of the stack, and with
    [amp] and [lt] in the entity table at code points 38 and 60, the
    entity references [&amp;] and [&lt;] append ['&'] and ['<'] to the
    text of [top], and the character references [&#65;] and [&#x41;]
    each append ['A']; the four in a row append ["&<AA"]. *)
Theorem references_decode name2codepoint self top n :
  name2codepoint !! py "amp" = Some 38 →
  name2codepoint !! py "lt" = Some 60 →
  recording self = true →
  last (stack self) = Some top →
  store self !! top = Some n →
  handle_entityref name2codepoint (py "amp") self
    = Ok (update top (append_data (py "&")) self) ∧
  handle_entityref name2codepoint (py "lt") self
    = Ok (update top (append_data (py "<")) self) ∧
  handle_charref (py "65") self
    = Ok (update top (append_data (py "A")) self) ∧
  handle_charref (py "x41") self
    = Ok (update top (append_data (py "A")) self) ∧
  ∃ self',
    feed name2codepoint
      [EntityRef (py "amp"); EntityRef (py "lt");
       CharRef (py "65"); CharRef (py "x41")] self = Ok self' ∧
    store self' !! top = Some (append_data (py "&<AA") n).
Proof.
  intros Hamp Hlt Hrec Htop Hn.
  assert (H1 : ∀ s, recording s = true → last (stack s) = Some top →
    handle_entityref name2codepoint (py "amp") s
      = Ok (update top (append_data (py "&")) s)).
  { intros s Hr Ht. unfold handle_entityref. rewrite Hamp, chr_amp.
    by apply handle_data_recording. }
  assert (H2 : ∀ s, recording s = true → last (stack s) = Some top →
    handle_entityref name2codepoint (py "lt") s
      = Ok (update top (append_data (py "<")) s)).
  { intros s Hr Ht. unfold handle_entityref. rewrite Hlt, chr_lt.
    by apply handle_data_recording. }
  assert (H3 : ∀ s, recording s = true → last (stack s) = Some top →
    handle_charref (py "65") s = Ok (update top (append_data (py "A")) s)).
  { intros s Hr Ht.
    change (handle_charref (py "65") s)
      with (n ← int (py "65") 10; c ← chr n; handle_data c s).
    rewrite int_65. cbn [mbind result_bind]. rewrite chr_A.
    by apply handle_data_recording. }
  assert (H4 : ∀ s, recording s = true → last (stack s) = Some top →
    handle_charref (py "x41") s = Ok (update top (append_data (py "A")) s)).
  { intros s Hr Ht.
    change (handle_charref (py "x41") s)
      with (n ← int (py "41") 16; c ← chr n; handle_data c s).
    rewrite int_x41. cbn [mbind result_bind]. rewrite chr_A.
    by apply handle_data_recording. }
  split; [by apply H1|]. split; [by apply H2|].
  split; [by apply H3|]. split; [by apply H4|].
  eexists. split.
  - cbn [feed handle]. rewrite H1 by done. cbn [mbind result_bind].
    rewrite H2 by done. cbn [mbind result_bind].
    rewrite H3 by done. cbn [mbind result_bind].
    rewrite H4 by done. reflexivity.
  - cbn [update store]. rewrite !list_lookup_alter_eq, Hn.
    cbn [fmap option_fmap option_map]. f_equal.
    unfold append_data. cbn [tag attrs children data].
    by rewrite <- !app_assoc.
Qed.

Lemma references_decode_witness :
  ∃ self',
    feed two_entities
      [EntityRef (py "amp"); EntityRef (py "lt");
       CharRef (py "65"); CharRef (py "x41")] open_sample_div = Ok self' ∧
    (data <$> store self' !! 0%nat) = Some (py "&<AA").
Proof.
  destruct (references_decode two_entities open_sample_div 0%nat
              (mkNode (py "div") {[ py "class" := Some (py "sample-test") ]}
                 [] []))
    as (_ & _ & _ & _ & self' & Hrun & Htop);
    [vm_compute; reflexivity|vm_compute; reflexivity|reflexivity..|].
  exists self'. split; [exact Hrun|]. rewrite Htop. reflexivity.
Defined.

(** The assertion of [handle_entityref]: called with a name that is
    not in the table, it raises the assertion error whose message names
    the entity, in every state and before [handle_data] is reached; a
    sequence of handler calls that holds such a call is not handled to
    its end. *)
Lemma handle_entityref_unknown name2codepoint name before after self :
  name2codepoint !! name = None →
  handle_entityref name2codepoint name self
    = Raise (AssertionError (Some (unrecognized name))) ∧
  (∃ e, feed name2codepoint (before ++ EntityRef name :: after) self
        = Raise e) ∧
  (∀ self', feed name2codepoint before self = Ok self' →
     feed name2codepoint (before ++ EntityRef name :: after) self
     = Raise (AssertionError (Some (unrecognized name)))).
Proof.
  intros Hname.
  assert (H : ∀ s, handle_entityref name2codepoint name s
                   = Raise (AssertionError (Some (unrecognized name)))).
  { intros s. unfold handle_entityref. by rewrite Hname. }
  split; [apply H|]. rewrite feed_app.
  destruct (feed name2codepoint before self) as [self1|e]; simpl.
  - rewrite H. simpl. split; [by eexists|done].
  - split; [by eexists|done].
Qed.

(** On the calls the tokenizer does make, the assertion cannot fail:
    from a state reached by a parse, handler calls other than the two
    reference handlers raise nothing but the [AttributeError] of the
    class test. *)
Lemma feed_without_references name2codepoint toks self e :
  wf self →
  forallb not_reference toks = true →
  feed name2codepoint toks self = Raise e →
  e = AttributeError.
Proof.
  revert self. induction toks as [|t toks IH]; intros self Hwf Hplain;
    [done|].
  cbn [forallb] in Hplain. apply andb_prop in Hplain as [Ht Hplain].
  cbn [feed].
  destruct (handle name2codepoint t self) as [self1|e1] eqn:Hhandle;
    cbn [mbind result_bind].
  - apply IH; [by eapply wf_handle|done].
  - intros [= <-]. destruct t as [tag attrs|tag|d|name|name];
      cbn [handle not_reference] in *; [| | |done|done].
    + rewrite handle_starttag_eq in Hhandle.
      destruct (sample_input_div tag (dict attrs)) as [b|e'] eqn:Hdiv;
        cbn [mbind result_bind] in Hhandle;
        [by destruct (recording self || b)|].
      injection Hhandle as <-. unfold sample_input_div in Hdiv.
      destruct (bool_decide (tag = py "div")); [|done].
      destruct (default _ _); [done|]. by injection Hdiv as <-.
    + unfold handle_endtag in Hhandle.
      destruct (recording self) eqn:Hrec; [|done].
      destruct (last (stack self)) as [node|] eqn:Hlast.
      * by destruct (removelast (stack self)).
      * apply last_None in Hlast. by apply (wf_recording _ Hwf) in Hrec.
    + unfold handle_data in Hhandle.
      destruct (recording self) eqn:Hrec; [|done].
      destruct (last (stack self)) as [top|] eqn:Hlast; [done|].
      apply last_None in Hlast. by apply (wf_recording _ Hwf) in Hrec.
Qed.

(** C7 fails on this page. [ProblemHTMLParser()] is built with the
    default [convert_charrefs], so for [&foo;] the tokenizer calls
    [handle_data], not [handle_entityref]: whatever the entity table
    holds, the parse returns, and [getExamples] gives one example whose
    input still has the reference in it. *)
Theorem unknown_entity_kept name2codepoint :
  forallb not_reference unknown_entity_page = true ∧
  ∃ self,
    feed name2codepoint unknown_entity_page init = Ok self ∧
    getExamples self = Some (Ok [(py "&foo;1", py "2")]).
Proof.
  split; [reflexivity|].
  destruct (feed name2codepoint unknown_entity_page init) as [self|e]
    eqn:Hfeed; [|vm_compute in Hfeed; discriminate Hfeed].
  exists self. split; [reflexivity|].
  vm_compute in Hfeed. injection Hfeed as <-. vm_compute. reflexivity.
Qed.

(** ** The order on strings *)

Lemma str_le_total a b : str_le a b = true ∨ str_le b a = true.
Proof.
  revert b. induction a as [|x a IH]; intros [|y b]; simpl; auto.
  repeat case_bool_decide; auto; lia.
Qed.

Lemma str_le_trans a b c :
  str_le a b = true → str_le b c = true → str_le a c = true.
Proof.
  revert b c. induction a as [|x a IH]; intros [|y b] [|z c]; simpl; auto;
    try done.
  repeat case_bool_decide; try done; try lia. apply IH.
Qed.

Lemma str_le_antisym a b :
  str_le a b = true → str_le b a = true → a = b.
Proof.
  revert b. induction a as [|x a IH]; intros [|y b]; simpl; try done.
  repeat case_bool_decide; try done; try lia.
  intros H1 H2. f_equal; [lia|by apply IH].
Qed.

Global Instance str_order_total : Total str_order.
Proof. intros a b. apply str_le_total. Qed.

Global Instance str_order_trans : Transitive str_order.
Proof. intros a b c. apply str_le_trans. Qed.

Lemma StronglySorted_strict (l : list str) :
  StronglySorted str_order l → NoDup l →
  StronglySorted (λ a b, str_order a b ∧ a ≠ b) l.
Proof.
  induction 1 as [|x l Hsorted IH Hall]; intros Hnodup; constructor.
  - apply IH. by apply NoDup_cons_1_2 in Hnodup.
  - apply NoDup_cons_1_1 in Hnodup.
    apply Forall_forall. intros y Hy. split.
    + by eapply Forall_forall in Hall.
    + by intros ->.
Qed.

(** ** The pattern *)

Lemma strip_prefix_Some p s r : strip_prefix p s = Some r ↔ s = p ++ r.
Proof.
  revert s. induction p as [|c p IH]; intros s; simpl.
  - split; [by intros [= ->]|by intros ->].
  - destruct s as [|d s]; [done|].
    case_bool_decide as Hcd.
    + subst d. rewrite IH. split; [by intros ->|by intros [= ->]].
    + split; [done|]. by intros [= -> _].
Qed.

Lemma strip_prefix_app p r : strip_prefix p (p ++ r) = Some r.
Proof. by apply strip_prefix_Some. Qed.

Lemma run_Forall cls s : Forall (λ c, cls c = true) (run cls s).
Proof.
  induction s as [|c s IH]; simpl; [constructor|].
  destruct (cls c) eqn:Hc; by constructor.
Qed.

Lemma run_split cls s : s = run cls s ++ drop (length (run cls s)) s.
Proof.
  induction s as [|c s IH]; simpl; [done|].
  destruct (cls c); simpl; [by f_equal|done].
Qed.

Lemma run_app_ge cls d r :
  Forall (λ c, cls c = true) d →
  (length d ≤ length (run cls (d ++ r)))%nat.
Proof.
  induction 1 as [|c d Hc _ IH]; simpl; [lia|].
  rewrite Hc. simpl. lia.
Qed.

Lemma run_take cls s k :
  (k ≤ length (run cls s))%nat → Forall (λ c, cls c = true) (take k s).
Proof.
  intros Hk. rewrite (run_split cls s).
  rewrite take_app_le by done. apply Forall_take, run_Forall.
Qed.

Lemma first_some_Some {A} (f : nat → option A) ks a :
  first_some f ks = Some a → ∃ k, k ∈ ks ∧ f k = Some a.
Proof.
  induction ks as [|k ks IH]; simpl; [done|].
  destruct (f k) as [b|] eqn:Hk.
  - intros [= ->]. exists k. split; [left|done].
  - intros (k' & Hin & Hk')%IH. exists k'. split; [by right|done].
Qed.

Lemma first_some_is_Some {A} (f : nat → option A) ks k :
  k ∈ ks → is_Some (f k) → is_Some (first_some f ks).
Proof.
  intros Hin Hk. induction Hin as [k ks|k k' ks _ IH]; simpl.
  - destruct Hk as [a ->]. by eexists.
  - destruct (f k'); [by eexists|by apply IH].
Qed.

Section PatternFacts.

Import ContestHTMLParser.

Variables is_digit is_word : Z → bool.

Lemma match_here_sound s w :
  match_here is_digit is_word s = Some w → matches_in is_digit is_word s w.
Proof.
  unfold match_here.
  destruct (strip_prefix (py "contest/") s) as [rest0|] eqn:Hstrip;
    simpl; [|done].
  apply strip_prefix_Some in Hstrip.
  intros (k & Hk & Hafter)%first_some_Some.
  apply elem_of_reverse, elem_of_seq in Hk.
  unfold after_digits in Hafter.
  destruct (strip_prefix (py "/problem/") (drop k rest0)) as [rest1|]
    eqn:Hstrip1; simpl in Hafter; [|done].
  apply strip_prefix_Some in Hstrip1.
  case_bool_decide as Hw; [done|]. injection Hafter as <-.
  exists [], (take k rest0), (drop (length (run is_word rest1)) rest1).
  split; [|split; [|split; [|split]]].
  - rewrite Hstrip, app_nil_l. f_equal.
    by rewrite <- run_split, <- Hstrip1, take_drop.
  - intros Hnil. apply (f_equal length) in Hnil.
    rewrite length_take in Hnil. simpl in Hnil.
    pose proof (run_split is_digit rest0) as Hsplit.
    apply (f_equal length) in Hsplit. rewrite length_app in Hsplit. lia.
  - apply run_take. lia.
  - done.
  - apply run_Forall.
Qed.

Lemma match_here_complete digits id rest :
  digits ≠ [] → Forall (λ c, is_digit c = true) digits →
  id ≠ [] → Forall (λ c, is_word c = true) id →
  is_Some (match_here is_digit is_word
             (py "contest/" ++ digits ++ py "/problem/" ++ id ++ rest)).
Proof.
  intros Hd Hdigits Hid Hword. unfold match_here.
  rewrite (strip_prefix_app (py "contest/")). cbn [mbind option_bind].
  apply (first_some_is_Some _ _ (length digits)).
  - apply elem_of_reverse, elem_of_seq.
    pose proof (run_app_ge is_digit digits (py "/problem/" ++ id ++ rest)
                  Hdigits).
    destruct digits; [done|]. cbn [length] in *. lia.
  - unfold after_digits. rewrite drop_app_length.
    rewrite (strip_prefix_app (py "/problem/")). cbn [mbind option_bind].
    destruct Hword as [|c id' Hc _]; [done|]. cbn [app run]. rewrite Hc.
    rewrite bool_decide_eq_false_2 by done. by eexists.
Qed.

Lemma search_sound s w :
  search is_digit is_word s = Some w → matches_in is_digit is_word s w.
Proof.
  induction s as [|c s IH].
  - intros H. vm_compute in H. discriminate H.
  - cbn [search]. destruct (match_here is_digit is_word (c :: s)) eqn:Hm.
    + intros [= ->]. by apply match_here_sound.
    + intros (before & digits & rest & -> & ?)%IH.
      by exists (c :: before), digits, rest.
Qed.

Lemma search_complete before digits id rest :
  digits ≠ [] → Forall (λ c, is_digit c = true) digits →
  id ≠ [] → Forall (λ c, is_word c = true) id →
  is_Some (search is_digit is_word
             (before ++ py "contest/" ++ digits ++ py "/problem/"
                ++ id ++ rest)).
Proof.
  intros Hd Hdigits Hid Hword.
  pose proof (match_here_complete digits id rest Hd Hdigits Hid Hword)
    as [w Hw].
  induction before as [|c before IH].
  - rewrite app_nil_l. exists w. revert Hw.
    generalize (py "contest/" ++ digits ++ py "/problem/" ++ id ++ rest).
    intros s Hs. destruct s; cbn [search]; by rewrite Hs.
  - cbn [app search].
    destruct (match_here is_digit is_word (c :: _)); [by eexists|done].
Qed.

Lemma search_nil : search is_digit is_word [] = None.
Proof. reflexivity. Qed.

(** ** What the contest parser collects *)

Lemma elem_of_handle_starttag tag attrs self id :
  id ∈ problems (handle_starttag is_digit is_word tag attrs self) ↔
  id ∈ problems self ∨
  (tag = py "a" ∧ ∃ href, dict attrs !! py "href" = Some (Some href) ∧
                          search is_digit is_word href = Some id).
Proof.
  unfold handle_starttag. case_bool_decide as Htag.
  - split; [by left|]. by intros [?|[? _]].
  - destruct (dict attrs !! py "href") as [[href|]|] eqn:Hhref.
    + case_bool_decide as Hempty.
      * subst href. split; [by left|].
        intros [?|(_ & href & [= <-] & Hs)]; [done|].
        by rewrite search_nil in Hs.
      * destruct (search is_digit is_word href) as [w|] eqn:Hs; simpl.
        -- rewrite elem_of_union, elem_of_singleton. split.
           ++ intros [->|?]; [right|by left]. split; [done|]. by exists href.
           ++ intros [?|(_ & href' & [= <-] & Hs')]; [by right|].
              left. congruence.
        -- split; [by left|].
           intros [?|(_ & href' & [= <-] & Hs')]; [done|congruence].
    + split; [by left|]. by intros [?|(_ & href & [=] & _)].
    + split; [by left|]. by intros [?|(_ & href & [=] & _)].
Qed.

Lemma elem_of_feed toks self id :
  id ∈ problems (feed is_digit is_word toks self) ↔
  id ∈ problems self ∨ link_to is_digit is_word toks id.
Proof.
  revert self. induction toks as [|t toks IH]; intros self.
  - simpl. split; [by left|]. intros [?|(a & h & Hin & _)]; [done|].
    by apply elem_of_nil in Hin.
  - change (feed is_digit is_word (t :: toks) self)
      with (feed is_digit is_word toks (handle is_digit is_word t self)).
    rewrite IH. unfold link_to.
    destruct t as [tag attrs|tag|d|name|name]; simpl;
      rewrite ?elem_of_handle_starttag; split.
    1: { intros [[?|[-> (href & Hh & Hs)]]|(a & h & Hin & Hh & Hs)].
         - by left.
         - right. exists attrs, href. split; [left|done].
         - right. exists a, h. split; [by right|done]. }
    1: { intros [?|(a & h & Hin & Hh & Hs)]; [by left; left|].
         apply elem_of_cons in Hin as [[= <- <-]|Hin].
         - left. right. split; [done|]. by exists h.
         - right. by exists a, h. }
    all: try (intros [?|(a & h & Hin & Hh & Hs)]; [by left|];
              right; exists a, h; split; [by right|done]).
    all: intros [?|(a & h & Hin & Hh & Hs)]; [by left|];
      apply elem_of_cons in Hin as [[=]|Hin]; right; by exists a, h.
Qed.

End PatternFacts.

(** C5: for every token stream, [getProblems] after the stream is
    strictly ascending in the order of strings (so sorted and without
    duplicates) and holds exactly the identifiers captured from the
    [href] of some start tag [a] of the stream; an identifier is captured
    only from a value that contains, at some position, [contest/], a
    non-empty run of digits, [/problem/] and the identifier, a non-empty
    run of word characters; and every value that contains such a piece
    yields an identifier. *)
Theorem getProblems_sorted_distinct is_digit is_word toks :
  let result :=
    ContestHTMLParser.getProblems
      (ContestHTMLParser.feed is_digit is_word toks ContestHTMLParser.init) in
  StronglySorted (λ a b, str_order a b ∧ a ≠ b) result ∧
  NoDup result ∧
  (∀ id, id ∈ result ↔ link_to is_digit is_word toks id) ∧
  (∀ href id, ContestHTMLParser.search is_digit is_word href = Some id →
     matches_in is_digit is_word href id) ∧
  (∀ before digits id rest,
     digits ≠ [] → Forall (λ c, is_digit c = true) digits →
     id ≠ [] → Forall (λ c, is_word c = true) id →
     is_Some (ContestHTMLParser.search is_digit is_word
                (before ++ py "contest/" ++ digits ++ py "/problem/"
                   ++ id ++ rest))).
Proof.
  intros result. unfold result, ContestHTMLParser.getProblems.
  set (ps := ContestHTMLParser.problems _).
  assert (Hnodup : NoDup (merge_sort str_order (elements ps))).
  { rewrite merge_sort_Permutation. apply NoDup_elements. }
  split; [|split; [done|split; [|split]]].
  - apply StronglySorted_strict; [|done].
    apply StronglySorted_merge_sort; apply _.
  - intros id. rewrite merge_sort_Permutation, elem_of_elements.
    unfold ps. rewrite elem_of_feed. simpl.
    split; [by intros [?%elem_of_empty|?]|by right].
  - apply search_sound.
  - apply search_complete.
Qed.

Lemma getProblems_sorted_distinct_witness :
  py "A" ∈ ContestHTMLParser.getProblems
             (ContestHTMLParser.feed ascii_digit ascii_word contest_page
                ContestHTMLParser.init) ∧
  is_Some (ContestHTMLParser.search ascii_digit ascii_word
             (py "http://codeforces.com/contest/1/problem/A")).
Proof.
  destruct (getProblems_sorted_distinct ascii_digit ascii_word contest_page)
    as (_ & _ & Hin & _ & Hsome).
  split.
  - apply Hin.
    exists [(py "href", Some (py "/contest/1/problem/A"))],
           (py "/contest/1/problem/A").
    split; [right; left|]. split; vm_compute; reflexivity.
  - apply (Hsome (py "http://codeforces.com/") (py "1") (py "A") []).
    + intros H. vm_compute in H. discriminate H.
    + vm_compute. repeat constructor.
    + intros H. vm_compute in H. discriminate H.
    + vm_compute. repeat constructor.
Defined.

(** ** Repeated attributes *)






(** ** The fan-out *)

Section ScriptFacts.

Variable name2codepoint : gmap str Z.
Variables is_digit is_word : Z → bool.
Variable lower : str → str.
Variable tokens : str → list token.
Variable urlopen : str → result str.

Lemma for_each_submit_returns {A} (call : A → prog unit) l log :
  (for_each (λ x, submit (call x)) l log).2 = Ok tt.
Proof.
  revert log. induction l as [|x l IH]; intros log; [done|].
  cbn [for_each mbind prog_bind]. unfold submit at 1. apply IH.
Qed.

(** Once the contest page has been retrieved, the exit status is 0,
    whatever the submitted calls do. *)
Lemma main_exit_status contest_uri contest_html :
  urlopen contest_uri = Ok contest_html →
  (main name2codepoint is_digit is_word lower tokens urlopen contest_uri).2
  = 0.
Proof.
  intros Hpage. unfold main.
  assert (Hret : (scrape name2codepoint is_digit is_word lower tokens urlopen
                    contest_uri []).2 = Ok tt).
  { unfold scrape. unfold mbind, prog_bind, emit, lift. rewrite Hpage.
    apply for_each_submit_returns. }
  destruct (scrape _ _ _ _ _ _ _ _) as [log [[]|e]]; [done|].
  discriminate Hret.
Qed.

End ScriptFacts.

(** C8 fails on this run: the call for problem A raises the assertion
    error of [getExamples], yet the log holds no report of it (for A only
    the two progress lines), the call for B runs to its end, and the exit
    status is 0. *)
Theorem main_swallows_failure :
  (download_problem ∅ ascii_lower failing_tokens failing_urlopen
     failing_contest_uri (py "A") []).2 = Raise (AssertionError None) ∧
  main ∅ ascii_digit ascii_word ascii_lower failing_tokens failing_urlopen
    failing_contest_uri
  = ([ RetrievingContest (py "http://codeforces.com/contest/1");
       ContestOK (length failing_contest_html);
       Found 2;
       Retrieving (py "http://codeforces.com/contest/1/problem/A");
       Retrieved (py "A") (length failing_html_A);
       Retrieving (py "http://codeforces.com/contest/1/problem/B");
       Retrieved (py "B") (length failing_html_B);
       EnsureDir (py "b");
       WriteInput (py "b") 1 (py "1 2");
       WriteOutput (py "b") 1 (py "3");
       Wrote 1 (py "B") ], 0).
Proof. split; vm_compute; reflexivity. Qed.

(** * Part III: further properties *)

(** ** Pages without a sample container *)

Lemma handle_not_recording name2codepoint t self self' :
  recording self = false →
  (∀ tag attrs, t = StartTag tag attrs →
     sample_input_div tag (dict attrs) ≠ Ok true) →
  handle name2codepoint t self = Ok self' → self' = self.
Proof.
  intros Hrec Hdiv. destruct t as [tag attrs|tag|d|name|name]; simpl.
  - rewrite handle_starttag_eq.
    specialize (Hdiv tag attrs eq_refl).
    destruct (sample_input_div tag (dict attrs)) as [[]|e];
      cbn [mbind result_bind]; rewrite ?Hrec; cbn [orb];
      [done|by intros [= <-]|done].
  - unfold handle_endtag. rewrite Hrec. by intros [= <-].
  - unfold handle_data. rewrite Hrec. by intros [= <-].
  - unfold handle_entityref. destruct (name2codepoint !! name); [|done].
    destruct (chr _); cbn [mbind result_bind]; [|done].
    unfold handle_data. rewrite Hrec. by intros [= <-].
  - unfold handle_charref. destruct name as [|c0 rest]; [done|].
    destruct (bool_decide (c0 = 120));
      (destruct (int _ _); cbn [mbind result_bind]; [|done]);
      (destruct (chr _); cbn [mbind result_bind]; [|done]);
      unfold handle_data; rewrite Hrec; by intros [= <-].
Qed.

Lemma feed_not_recording name2codepoint toks s0 self :
  recording s0 = false →
  (∀ tag attrs, StartTag tag attrs ∈ toks →
     sample_input_div tag (dict attrs) ≠ Ok true) →
  feed name2codepoint toks s0 = Ok self → self = s0.
Proof.
  intros Hrec. induction toks as [|t toks IH]; intros Hdiv; simpl.
  - by intros [= <-].
  - destruct (handle name2codepoint t s0) as [s1|e] eqn:Ht;
      cbn [mbind result_bind]; [|done].
    apply handle_not_recording in Ht as ->; [| done |].
    + apply IH. intros tag attrs Hin. apply Hdiv. by right.
    + intros tag attrs ->. apply Hdiv. left.
Qed.

(** X1: a page on which no start tag is a [div] whose class contains
    ["sample"] leaves the parser untouched: if the parse does not raise,
    the state is the initial one, and [getExamples] returns the empty
    list. *)
Theorem no_sample_container name2codepoint toks self :
  (∀ tag attrs, StartTag tag attrs ∈ toks →
     sample_input_div tag (dict attrs) ≠ Ok true) →
  feed name2codepoint toks init = Ok self →
  self = init ∧ getExamples self = Some (Ok []).
Proof.
  intros Hdiv Hfeed.
  apply feed_not_recording in Hfeed as ->; done.
Qed.

Lemma no_sample_container_witness :
  feed ∅ plain_page init = Ok init ∧ getExamples init = Some (Ok []).
Proof.
  assert (Hrun : feed ∅ plain_page init = Ok init)
    by (vm_compute; reflexivity).
  split; [exact Hrun|].
  refine (proj2 (no_sample_container ∅ plain_page init _ Hrun)).
  intros tag attrs Hin.
  repeat (apply elem_of_cons in Hin as [Heq|Hin];
          [try discriminate Heq; injection Heq as -> ->;
           vm_compute; discriminate|]).
  by apply elem_of_nil in Hin.
Defined.

(** ** Text in pieces *)

Lemma append_data_twice a b n :
  append_data b (append_data a n) = append_data (a ++ b) n.
Proof. unfold append_data. cbn. by rewrite app_assoc. Qed.

Lemma update_append_data_twice top a b self :
  update top (append_data b) (update top (append_data a) self)
  = update top (append_data (a ++ b)) self.
Proof.
  unfold update. cbn. f_equal.
  rewrite list_alter_alter_eq. apply list_alter_ext; [|done].
  intros n _. apply append_data_twice.
Qed.

(** X2: text delivered in two pieces is recorded as the same text
    delivered in one piece, in every state and whatever follows. *)
Theorem data_in_pieces name2codepoint a b rest self :
  feed name2codepoint (Data a :: Data b :: rest) self
  = feed name2codepoint (Data (a ++ b) :: rest) self.
Proof.
  cbn [feed handle]. unfold handle_data.
  destruct (recording self) eqn:Hrec; cbn [mbind result_bind].
  - destruct (last (stack self)) as [top|] eqn:Htop;
      cbn [mbind result_bind]; [|done].
    cbn [update recording stack]. rewrite Hrec, Htop.
    cbn [mbind result_bind]. by rewrite update_append_data_twice.
  - by rewrite Hrec.
Qed.

(** ** Nodes that have left the stack *)

Lemma update_frozen top f self i :
  i ≠ top → store (update top f self) !! i = store self !! i.
Proof. intros Hne. cbn. by rewrite list_lookup_alter_ne. Qed.

Lemma handle_frozen name2codepoint t self self' :
  handle name2codepoint t self = Ok self' →
  (length (store self) ≤ length (store self'))%nat ∧
  ∀ i, (i < length (store self))%nat → i ∉ stack self →
       store self' !! i = store self !! i ∧ i ∉ stack self'.
Proof.
  assert (Hdata : ∀ d s s', handle_data d s = Ok s' →
    (length (store s) ≤ length (store s'))%nat ∧
    ∀ i, (i < length (store s))%nat → i ∉ stack s →
         store s' !! i = store s !! i ∧ i ∉ stack s').
  { intros d s s'. unfold handle_data.
    destruct (recording s); [|by intros [= <-]].
    destruct (last (stack s)) as [top|] eqn:Htop; [|done].
    intros [= <-]. cbn. rewrite length_alter. split; [done|].
    intros i Hi Hstack. split; [|done].
    apply list_lookup_alter_ne. intros ->. apply Hstack.
    apply last_Some in Htop as [l ->].
          apply elem_of_app. right. left. }
  destruct t as [tag attrs|tag|d|name|name]; simpl.
  - rewrite handle_starttag_eq.
    destruct (sample_input_div tag (dict attrs)) as [b|e];
      cbn [mbind result_bind]; [|done].
    destruct (recording self || b); intros [= <-]; [|done].
    cbn. rewrite length_store_after_starttag. split; [lia|].
    intros i Hi Hstack. split.
    + unfold store_after_starttag.
      destruct (last (stack self)) as [top|] eqn:Htop.
      * assert (i ≠ top).
        { intros ->. apply Hstack.
          apply last_Some in Htop as [l ->].
          apply elem_of_app. right. left. }
        destruct (bool_decide (tag = py "br"));
          rewrite list_lookup_alter_ne by done; by rewrite lookup_app_l.
      * by rewrite lookup_app_l.
    + rewrite elem_of_app, list_elem_of_singleton. intros [?| ->]; [done|lia].
  - unfold handle_endtag. destruct (recording self); [|by intros [= <-]].
    destruct (last (stack self)) as [node|] eqn:Hlast; [|done].
    apply last_Some in Hlast as [l Hl]. rewrite Hl, removelast_last.
    assert (Hsub : ∀ i, i ∉ l ++ [node] → i ∉ l).
    { intros i Hni Hin. apply Hni, elem_of_app. by left. }
    destruct l; intros [= <-]; cbn; (split; [done|]);
      intros i Hi Hstack; (split; [done|]); by apply Hsub.
  - apply Hdata.
  - unfold handle_entityref. destruct (name2codepoint !! name); [|done].
    destruct (chr _); cbn [mbind result_bind]; [|done]. apply Hdata.
  - unfold handle_charref. destruct name as [|c0 rest]; [done|].
    destruct (bool_decide (c0 = 120));
      (destruct (int _ _); cbn [mbind result_bind]; [|done]);
      (destruct (chr _); cbn [mbind result_bind]; [|done]); apply Hdata.
Qed.

Lemma feed_frozen name2codepoint toks self self' :
  feed name2codepoint toks self = Ok self' →
  (length (store self) ≤ length (store self'))%nat ∧
  ∀ i, (i < length (store self))%nat → i ∉ stack self →
       store self' !! i = store self !! i ∧ i ∉ stack self'.
Proof.
  revert self. induction toks as [|t toks IH]; intros self; simpl.
  - by intros [= <-].
  - destruct (handle name2codepoint t self) as [s1|e] eqn:Ht;
      cbn [mbind result_bind]; [|done].
    intros Hfeed. apply handle_frozen in Ht as [Hlen1 Hfr1].
    apply IH in Hfeed as [Hlen2 Hfr2]. split; [lia|].
    intros i Hi Hstack. destruct (Hfr1 i Hi Hstack) as [Heq1 Hst1].
    destruct (Hfr2 i ltac:(lia) Hst1) as [Heq2 Hst2].
    split; [congruence|done].
Qed.

(** X3: a node that is not on the stack is never changed again: after
    any further tokens it is found unchanged in the store, and it does
    not come back onto the stack. *)
Theorem off_stack_nodes_frozen name2codepoint toks self self' :
  feed name2codepoint toks self = Ok self' →
  (length (store self) ≤ length (store self'))%nat ∧
  ∀ i, (i < length (store self))%nat → i ∉ stack self →
       store self' !! i = store self !! i ∧ i ∉ stack self'.
Proof. apply feed_frozen. Qed.

Lemma off_stack_nodes_frozen_witness :
  ∃ self',
    feed ∅ [StartTag (py "pre") []; Data (py "6"); EndTag (py "pre")]
      sample_page_final = Ok self' ∧
    store self' !! 2%nat = Some (mkNode (py "pre") ∅ [] (py "1 2")).
Proof.
  destruct (feed ∅ [StartTag (py "pre") []; Data (py "6"); EndTag (py "pre")]
              sample_page_final) as [self'|e] eqn:Hfeed;
    [|vm_compute in Hfeed; discriminate Hfeed].
  exists self'. split; [reflexivity|].
  destruct (off_stack_nodes_frozen ∅ _ _ _ Hfeed) as [_ Hfrozen].
  destruct (Hfrozen 2%nat) as [-> _];
    [vm_compute; lia|apply not_elem_of_nil|reflexivity].
Defined.

(** ** Content after the sample region *)

Lemma tree_of_mono fuel fuel' store r t :
  tree_of fuel store r = Some t → (fuel ≤ fuel')%nat →
  tree_of fuel' store r = Some t.
Proof.
  revert fuel' r t. induction fuel as [|fuel IH]; intros fuel' r t; [done|].
  destruct fuel' as [|fuel']; [lia|]. cbn [tree_of]. intros Ht Hle.
  destruct (store !! r) as [n|]; cbn [mbind option_bind] in *; [|done].
  destruct (mapM (tree_of fuel store) (children n)) as [ts|] eqn:Hts;
    cbn [mbind option_bind] in *; [|done].
  assert (mapM (tree_of fuel' store) (children n) = Some ts) as ->; [|done].
  apply mapM_Some. apply mapM_Some in Hts.
  eapply Forall2_impl; [exact Hts|]. intros c tc Hc. apply IH; [done|lia].
Qed.

(** A tree read from [store1] is read unchanged from any store that
    agrees with [store1] on the nodes from [r] on. *)
Lemma tree_of_frame fuel store1 store2 r t :
  (∀ i n, store1 !! i = Some n → Forall (λ c, i < c)%nat (children n)) →
  (∀ i, (r ≤ i)%nat → (i < length store1)%nat →
        store2 !! i = store1 !! i) →
  tree_of fuel store1 r = Some t → tree_of fuel store2 r = Some t.
Proof.
  intros Hch. revert r t. induction fuel as [|fuel IH]; intros r t Hagree;
    [done|]. cbn [tree_of].
  destruct (store1 !! r) as [n|] eqn:Hn; cbn [mbind option_bind]; [|done].
  rewrite (Hagree r) by (eauto using lookup_lt_Some). rewrite Hn.
  cbn [mbind option_bind].
  destruct (mapM (tree_of fuel store1) (children n)) as [ts|] eqn:Hts;
    cbn [mbind option_bind]; [|done].
  assert (mapM (tree_of fuel store2) (children n) = Some ts) as ->; [|done].
  apply mapM_Some. apply mapM_Some in Hts.
  specialize (Hch _ _ Hn).
  induction Hts as [|c tc cs ts Hc _ IHts]; constructor.
  - apply IH; [|done]. intros i Hi Hlen. apply Hagree; [|done].
    apply Forall_cons in Hch as [Hrc _]. lia.
  - apply IHts. by apply Forall_cons in Hch as [_ ?].
Qed.

Lemma wf_children_increasing self :
  wf self →
  ∀ i n, store self !! i = Some n → Forall (λ c, i < c)%nat (children n).
Proof.
  intros [_ _ _ Hch] i n Hn. eapply Forall_impl; [exact (Hch _ _ Hn)|].
  simpl. lia.
Qed.

(** X4: once the sample region is complete, what follows on the page
    does not change the harvest: from a reachable state with an empty
    stack and one completed root, any further tokens that do not complete
    another root leave the result of [getExamples] as it was. *)
Theorem getExamples_after_region name2codepoint before after self self' root :
  feed name2codepoint before init = Ok self →
  stack self = [] →
  sample_input_nodes self = [root] →
  feed name2codepoint after self = Ok self' →
  sample_input_nodes self' = [root] →
  getExamples self' = getExamples self.
Proof.
  intros Hbefore Hstack Hroot Hafter Hroot'.
  apply wf_reachable in Hbefore as Hwf.
  pose proof (wf_feed _ _ _ _ Hwf Hafter) as Hwf'.
  destruct (getExamples_single self root Hwf Hroot) as (t & Ht & _ & ->).
  destruct (getExamples_single self' root Hwf' Hroot') as (t' & Ht' & _ & ->).
  destruct (feed_frozen _ _ _ _ Hafter) as [Hlen Hfrozen].
  assert (tree_of (length (store self')) (store self') root = Some t) as Heq.
  { eapply tree_of_mono; [|exact Hlen].
    apply (tree_of_frame _ (store self) (store self'));
      [by apply wf_children_increasing| |exact Ht].
    intros i _ Hi. apply Hfrozen; [done|]. rewrite Hstack.
    apply not_elem_of_nil. }
  rewrite Heq in Ht'. by injection Ht' as <-.
Qed.

Lemma getExamples_after_region_witness :
  ∃ self',
    feed ∅ [StartTag (py "p") []; Data (py "Note"); EndTag (py "p")]
      sample_page_final = Ok self' ∧
    getExamples self' = Some (Ok [(py "1 2", py "3")]).
Proof.
  destruct (feed ∅ [StartTag (py "p") []; Data (py "Note"); EndTag (py "p")]
              sample_page_final) as [self'|e] eqn:Hfeed;
    [|vm_compute in Hfeed; discriminate Hfeed].
  exists self'. split; [reflexivity|].
  assert (Hreach : feed ∅ (sample_page (py "1 2") (py "3")) init
                   = Ok sample_page_final) by (vm_compute; reflexivity).
  rewrite (getExamples_after_region ∅ _ _ _ _ 0%nat Hreach eq_refl eq_refl
             Hfeed).
  - vm_compute. reflexivity.
  - vm_compute in Hfeed. injection Hfeed as <-. reflexivity.
Defined.

(** ** The test for a sample container *)

Lemma find_from_range i s sub :
  0 ≤ i → find_from i s sub = -1 ∨ i ≤ find_from i s sub.
Proof.
  revert i. induction s as [|c s IH]; intros i Hi; cbn [find_from].
  - case_bool_decide; [right; lia|by left].
  - case_bool_decide; [right; lia|].
    destruct (IH (i + 1)) as [?|?]; [lia|by left|right; lia].
Qed.

Lemma find_from_occurs i s sub :
  0 ≤ i → find_from i s sub ≠ -1 ↔ ∃ a b, s = a ++ sub ++ b.
Proof.
  revert i. induction s as [|c s IH]; intros i Hi; cbn [find_from].
  - case_bool_decide as Hpre.
    + split; [|lia]. intros _. destruct Hpre as [b ->]. by exists [], b.
    + split; [done|]. intros (a & b & Hab). exfalso. apply Hpre.
      symmetry in Hab. apply app_eq_nil in Hab as [_ Hab].
      apply app_eq_nil in Hab as [-> _]. done.
  - case_bool_decide as Hpre.
    + split; [|lia]. intros _. destruct Hpre as [b ->]. by exists [], b.
    + rewrite IH by lia. split.
      * intros (a & b & ->). by exists (c :: a), b.
      * intros (a & b & Hab). destruct a as [|c' a].
        -- exfalso. apply Hpre. exists b. by rewrite Hab.
        -- injection Hab as -> ->. by exists a, b.
Qed.

(** X5: the test for a sample container is a substring test on the
    value of [class]: it holds exactly for a [div] whose [class] has a
    value in which ["sample"] occurs somewhere; it raises exactly for a
    [div] whose [class] has no value; every other tag fails the test. *)
Theorem sample_input_div_substring (tag : str) (attrs : gmap str (option str)) :
  (sample_input_div tag attrs = Ok true ↔
     tag = py "div" ∧
     ∃ v a b, attrs !! py "class" = Some (Some v) ∧
              v = a ++ py "sample" ++ b) ∧
  (∀ e, sample_input_div tag attrs = Raise e ↔
     tag = py "div" ∧ attrs !! py "class" = Some None ∧ e = AttributeError).
Proof.
  unfold sample_input_div. case_bool_decide as Htag.
  - destruct (attrs !! py "class") as [[v|]|] eqn:Hclass; cbn [default].
    + split.
      * split.
        -- intros [= Hfind]. apply bool_decide_eq_true in Hfind.
           apply (find_from_occurs 0) in Hfind as (a & b & ->); [|lia].
           split; [done|]. by exists (a ++ py "sample" ++ b), a, b.
        -- intros (_ & v' & a & b & [= <-] & ->). f_equal.
           apply bool_decide_eq_true. apply (find_from_occurs 0); [lia|].
           by exists a, b.
      * intros e. split; [done|]. by intros (_ & [=] & _).
    + split.
      * split; [done|]. by intros (_ & v & a & b & [=] & _).
      * intros e. split; [by intros [= <-]|by intros (_ & _ & ->)].
    + split.
      * split; [by intros [=]|by intros (_ & v & a & b & [=] & _)].
      * intros e. split; [done|]. by intros (_ & [=] & _).
  - split.
    + split; [done|]. by intros [? _].
    + intros e. split; [done|]. by intros [? _].
Qed.

(** ** Numeric character references *)

Lemma int_digits_numeral base acc ds cs :
  Forall2 (λ d c, digit_value base c = Some d) ds cs →
  int_digits base acc cs = Some (foldl (λ a d, a * base + d) acc ds).
Proof.
  intros H. revert acc. induction H as [|d c ds cs Hd _ IH]; intros acc;
    cbn [int_digits foldl]; [done|]. by rewrite Hd, IH.
Qed.

Lemma digit_value_decimal d :
  0 ≤ d < 10 → digit_value 10 (decimal_char d) = Some d.
Proof.
  intros Hd. unfold digit_value, decimal_char.
  rewrite bool_decide_eq_true_2 by lia.
  rewrite bool_decide_eq_true_2 by lia. f_equal. lia.
Qed.

Lemma digit_value_hex d c :
  0 ≤ d < 16 → hex_char d c → digit_value 16 c = Some d.
Proof.
  intros Hd [[Hlt ->]|[Hge [->| ->]]]; unfold digit_value.
  - rewrite bool_decide_eq_true_2 by lia.
    rewrite bool_decide_eq_true_2 by lia. f_equal. lia.
  - rewrite bool_decide_eq_false_2 by lia.
    rewrite bool_decide_eq_true_2 by lia.
    rewrite bool_decide_eq_true_2 by lia. f_equal. lia.
  - rewrite bool_decide_eq_false_2 by lia.
    rewrite bool_decide_eq_false_2 by lia.
    rewrite bool_decide_eq_true_2 by lia.
    rewrite bool_decide_eq_true_2 by lia. f_equal. lia.
Qed.

Lemma digit_values_decimal ds :
  Forall (λ d, 0 ≤ d < 10) ds →
  Forall2 (λ d c, digit_value 10 c = Some d) ds (decimal_char <$> ds).
Proof.
  induction 1 as [|d ds Hd _ IH]; constructor; [|done].
  by apply digit_value_decimal.
Qed.

(** X6: numeric character references are decoded by value. While
    recording, the decimal reference made of the digits [ds] appends the
    character whose code point is the value of [ds] in base 10, and the
    reference made of a lower-case [x] and the hexadecimal digits [ds], in
    either case, appends the character of their value in base 16, as long
    as the value is a code point; with an upper-case [X] the reference is
    read as a decimal number and raises [ValueError] in every state. *)
Theorem handle_charref_by_value ds cs self :
  (∀ top,
     ds ≠ [] → recording self = true → last (stack self) = Some top →
     (Forall (λ d, 0 ≤ d < 10) ds →
      numeral_value 10 ds < 1114112 →
      handle_charref (decimal_char <$> ds) self
      = Ok (update top (append_data [numeral_value 10 ds]) self)) ∧
     (Forall (λ d, 0 ≤ d < 16) ds →
      Forall2 hex_char ds cs →
      numeral_value 16 ds < 1114112 →
      handle_charref (120 :: cs) self
      = Ok (update top (append_data [numeral_value 16 ds]) self))) ∧
  handle_charref (88 :: cs) self = Raise ValueError.
Proof.
  split; [|reflexivity]. intros top Hne Hrec Htop.
  assert (Hpos : ∀ base, 0 < base → Forall (λ d, 0 ≤ d < base) ds →
                 0 ≤ numeral_value base ds).
  { clear Hne. intros base Hbase Hds. unfold numeral_value.
    assert (∀ acc, 0 ≤ acc → 0 ≤ foldl (λ a d, a * base + d) acc ds) as H;
      [|by apply H].
    induction Hds as [|d ds' Hd _ IH]; intros acc Hacc; cbn [foldl];
      [done|]. apply IH. simpl in Hd. nia. }
  split.
  - intros Hds Hval. destruct ds as [|d ds']; [done|].
    cbn [fmap list_fmap]. unfold handle_charref.
    rewrite bool_decide_eq_false_2
      by (apply Forall_cons in Hds as [? _]; unfold decimal_char; lia).
    unfold int.
    rewrite (int_digits_numeral 10 0 (d :: ds'))
      by exact (digit_values_decimal (d :: ds') Hds).
    fold (numeral_value 10 (d :: ds')). cbn [mbind result_bind].
    unfold chr. rewrite bool_decide_eq_true_2
      by (split; [apply Hpos; [lia|done]|done]).
    cbn [mbind result_bind]. by apply handle_data_recording.
  - intros Hds Hcs Hval. unfold handle_charref.
    rewrite bool_decide_eq_true_2 by done.
    destruct Hcs as [|d c ds' cs' Hc Hcs']; [done|].
    unfold int. rewrite (int_digits_numeral 16 0 (d :: ds')).
    + fold (numeral_value 16 (d :: ds')). cbn [mbind result_bind].
      unfold chr. rewrite bool_decide_eq_true_2
        by (split; [apply Hpos; [lia|done]|done]).
      cbn [mbind result_bind]. by apply handle_data_recording.
    + assert (Hall : Forall2 hex_char (d :: ds') (c :: cs'))
        by (by constructor).
      clear -Hall Hds. induction Hall as [|x y xs ys Hxy _ IH];
        constructor.
      * apply digit_value_hex; [|done]. by apply Forall_cons in Hds as [? _].
      * apply IH. by apply Forall_cons in Hds as [_ ?].
Qed.

Lemma handle_charref_by_value_witness :
  handle_charref (py "65") open_sample_div
    = Ok (update 0%nat (append_data (py "A")) open_sample_div) ∧
  handle_charref (py "x4E") open_sample_div
    = Ok (update 0%nat (append_data (py "N")) open_sample_div).
Proof.
  destruct (handle_charref_by_value [6; 5] [] open_sample_div) as [Hrefs _].
  destruct (Hrefs 0%nat) as [Hdec _]; [done|reflexivity|reflexivity|].
  clear Hrefs.
  destruct (handle_charref_by_value [4; 14] (py "4E") open_sample_div)
    as [Hrefs _].
  destruct (Hrefs 0%nat) as [_ Hhex]; [done|reflexivity|reflexivity|].
  clear Hrefs.
  split.
  - apply Hdec; [repeat constructor; lia|reflexivity].
  - apply Hhex; [repeat constructor; lia| |reflexivity].
    constructor; [left; split; [lia|reflexivity]|].
    constructor; [right; split; [lia|right; reflexivity]|constructor].
Defined.

(** ** The captured identifier *)

Lemma run_maximal cls s c rest :
  drop (length (run cls s)) s = c :: rest → cls c = false.
Proof.
  induction s as [|c' s IH]; cbn [run]; [done|].
  destruct (cls c') eqn:Hc'; cbn [length drop]; [done|].
  by intros [= <- _].
Qed.

Section Greedy.

Variables is_digit is_word : Z → bool.

Lemma match_here_greedy s w :
  ContestHTMLParser.match_here is_digit is_word s = Some w →
  ∃ digits rest,
    s = py "contest/" ++ digits ++ py "/problem/" ++ w ++ rest ∧
    ∀ c rest', rest = c :: rest' → is_word c = false.
Proof.
  unfold ContestHTMLParser.match_here.
  destruct (strip_prefix (py "contest/") s) as [rest0|] eqn:Hstrip;
    cbn [mbind option_bind]; [|done].
  apply strip_prefix_Some in Hstrip.
  intros (k & _ & Hafter)%first_some_Some.
  unfold ContestHTMLParser.after_digits in Hafter.
  destruct (strip_prefix (py "/problem/") (drop k rest0)) as [rest1|]
    eqn:Hstrip1; cbn [mbind option_bind] in Hafter; [|done].
  apply strip_prefix_Some in Hstrip1.
  case_bool_decide as Hw; [done|]. injection Hafter as <-.
  exists (take k rest0), (drop (length (run is_word rest1)) rest1). split.
  - rewrite Hstrip. f_equal.
    by rewrite <- run_split, <- Hstrip1, take_drop.
  - intros c rest'. apply run_maximal.
Qed.

(** X7: the identifier that [search] captures is followed, in the
    attribute value, by the end of the value or by a character that is
    not a word character: the group takes the whole run of word
    characters after [/problem/]. *)
Theorem search_captures_whole_word href id :
  ContestHTMLParser.search is_digit is_word href = Some id →
  ∃ before digits rest,
    href = before ++ py "contest/" ++ digits ++ py "/problem/" ++ id ++ rest ∧
    ∀ c rest', rest = c :: rest' → is_word c = false.
Proof.
  induction href as [|c href IH].
  - intros H. vm_compute in H. discriminate H.
  - cbn [ContestHTMLParser.search].
    destruct (ContestHTMLParser.match_here is_digit is_word (c :: href))
      as [w|] eqn:Hm.
    + intros [= ->]. apply match_here_greedy in Hm as (digits & rest & -> & ?).
      by exists [], digits, rest.
    + intros (before & digits & rest & -> & ?)%IH.
      by exists (c :: before), digits, rest.
Qed.

(** ** The order of the links *)

(** X8: the list of problems depends only on which tokens occur in the
    stream, not on their order or on how often they occur. *)
Theorem getProblems_set_of_tokens toks1 toks2 :
  (∀ t, t ∈ toks1 ↔ t ∈ toks2) →
  ContestHTMLParser.getProblems
    (ContestHTMLParser.feed is_digit is_word toks1 ContestHTMLParser.init)
  = ContestHTMLParser.getProblems
      (ContestHTMLParser.feed is_digit is_word toks2 ContestHTMLParser.init).
Proof.
  intros Hsame. unfold ContestHTMLParser.getProblems. do 2 f_equal.
  apply set_eq. intros id. rewrite !elem_of_feed. unfold link_to.
  split; (intros [?|(attrs & href & Hin & ?)]; [by left|right]);
    exists attrs, href; (split; [by apply Hsame|done]).
Qed.

End Greedy.

Lemma search_captures_whole_word_witness :
  ∃ before digits rest,
    py "/contest/1/problem/B1?locale=en"
    = before ++ py "contest/" ++ digits ++ py "/problem/" ++ py "B1" ++ rest ∧
    ∀ c rest', rest = c :: rest' → ascii_word c = false.
Proof.
  apply (search_captures_whole_word ascii_digit ascii_word).
  vm_compute. reflexivity.
Defined.

Lemma getProblems_set_of_tokens_witness :
  ContestHTMLParser.getProblems
    (ContestHTMLParser.feed ascii_digit ascii_word
       (reverse contest_page ++ contest_page) ContestHTMLParser.init)
  = [py "A"; py "B"].
Proof.
  rewrite (getProblems_set_of_tokens ascii_digit ascii_word
             (reverse contest_page ++ contest_page) contest_page).
  - vm_compute. reflexivity.
  - intros t. rewrite elem_of_app, elem_of_reverse. tauto.
Defined.

(** ** The patches *)

Lemma find_from_absent i s sub :
  0 ≤ i → find_from i s sub = -1 →
  ∀ a b, s ≠ a ++ sub ++ b.
Proof.
  intros Hi Hfind a b Hs.
  apply (proj2 (find_from_occurs i s sub Hi)); [by exists a, b|done].
Qed.

Lemma replace_go_absent old new s :
  (∀ a b, s ≠ a ++ old ++ b) → replace_go old new 0 s = s.
Proof.
  induction s as [|c s IH]; intros Habs; cbn [replace_go]; [done|].
  case_bool_decide as Hpre.
  - destruct Hpre as [b Hb]. by destruct (Habs [] b).
  - f_equal. apply IH. intros a b ->. by apply (Habs (c :: a) b).
Qed.

(** X9: a page text in which none of the three malformed fragments
    occurs goes through the patches unchanged. *)
Theorem patch_well_formed problem_html :
  find problem_html (py "<p</p>") = -1 →
  find problem_html (py "<ul</ul>") = -1 →
  find problem_html
    (py "<div class=" ++ [34] ++ py "sample-test" ++ [34] ++ py "<") = -1 →
  patch problem_html = problem_html.
Proof.
  intros H1 H2 H3. unfold patch, replace.
  rewrite (replace_go_absent (py "<p</p>"))
    by (by apply (find_from_absent 0)).
  rewrite (replace_go_absent (py "<ul</ul>"))
    by (by apply (find_from_absent 0)).
  apply replace_go_absent. by apply (find_from_absent 0).
Qed.

Lemma patch_well_formed_witness : patch failing_html_A = failing_html_A.
Proof. apply patch_well_formed; vm_compute; reflexivity. Defined.

Lemma replace_go_skip old new l s :
  replace_go old new (length l) (l ++ s) = replace_go old new 0 s.
Proof.
  induction l as [|c l IH]; [done|]. cbn [length app replace_go]. apply IH.
Qed.

Lemma replace_head old new s :
  old ≠ [] → replace (old ++ s) old new = new ++ replace s old new.
Proof.
  intros Hold. unfold replace.
  destruct old as [|c0 old']; [done|]. cbn [app replace_go].
  rewrite bool_decide_eq_true_2 by (by exists s).
  f_equal. cbn [length]. rewrite Nat.sub_1_r. cbn [Nat.pred].
  apply replace_go_skip.
Qed.

Lemma replace_cons old new c s :
  ¬ old `prefix_of` c :: s →
  replace (c :: s) old new = c :: replace s old new.
Proof.
  intros Hpre. unfold replace. cbn [replace_go].
  by rewrite bool_decide_eq_false_2.
Qed.

(** No occurrence starts at a character other than the first of
    [old], nor at that character followed by another than the second. *)
Ltac no_occurrence :=
  let H := fresh in
  intros H;
  first [ apply prefix_cons_inv_1 in H; discriminate H
        | apply prefix_cons_inv_2, prefix_cons_inv_1 in H; discriminate H ].

(** X10: the patches work where the fragment stands. A text that
    starts with [<p</p>] is patched into [<p></p>] followed by the patched
    rest, one that starts with [<ul</ul>] into [<ul></ul>] followed by the
    patched rest, and a character other than [<] is kept and followed by
    the patched rest. *)
Theorem patch_steps c s :
  patch (py "<p</p>" ++ s) = py "<p></p>" ++ patch s ∧
  patch (py "<ul</ul>" ++ s) = py "<ul></ul>" ++ patch s ∧
  (c ≠ 60 → patch (c :: s) = c :: patch s).
Proof.
  unfold patch.
  set (old3 := py "<div class=" ++ [34] ++ py "sample-test" ++ [34] ++ py "<").
  set (new3 := py "<div class=" ++ [34] ++ py "sample-test" ++ [34]
               ++ py "><").
  assert (Hold3 : ∃ old', old3 = 60 :: 100 :: old') by (by eexists).
  destruct Hold3 as [old3' Hold3]. rewrite Hold3. clear Hold3 old3.
  assert (H1 : py "<p</p>" = [60; 112; 60; 47; 112; 62]) by reflexivity.
  assert (H2 : py "<ul</ul>" = [60; 117; 108; 60; 47; 117; 108; 62])
    by reflexivity.
  assert (H3 : py "<p></p>" = [60; 112; 62; 60; 47; 112; 62])
    by reflexivity.
  assert (H4 : py "<ul></ul>" = [60; 117; 108; 62; 60; 47; 117; 108; 62])
    by reflexivity.
  split; [|split].
  - rewrite replace_head by done. rewrite H2, H3. cbn [app].
    rewrite !replace_cons by no_occurrence. reflexivity.
  - rewrite H1, H2 at 1. cbn [app].
    rewrite !(replace_cons [60; 112; 60; 47; 112; 62]) by no_occurrence.
    rewrite <- H1.
    change (60 :: 117 :: 108 :: 60 :: 47 :: 117 :: 108 :: 62 :: ?r)
      with (py "<ul</ul>" ++ r).
    rewrite replace_head by done. rewrite H4. cbn [app].
    rewrite !replace_cons by no_occurrence. reflexivity.
  - intros Hc. rewrite H1, H2.
    rewrite !replace_cons; [reflexivity|..];
      intros Hpre; apply prefix_cons_inv_1 in Hpre; congruence.
Qed.

Lemma patch_steps_witness :
  patch (py "x<p</p>") = py "x<p></p>".
Proof.
  destruct (patch_steps 120 (py "<p</p>")) as (_ & _ & Hchar).
  destruct (patch_steps 0 []) as (Hp & _ & _).
  change (py "x<p</p>") with (120 :: py "<p</p>").
  rewrite Hchar by discriminate.
  change (py "<p</p>") with (py "<p</p>" ++ []) at 1.
  rewrite Hp. reflexivity.
Defined.

(** ** One problem *)

Lemma write_examples_log problem_dir i0 examples log :
  write_examples problem_dir i0 examples log
  = (log ++ file_events problem_dir i0 examples, Ok tt).
Proof.
  revert i0 log. induction examples as [|ex examples IH]; intros i0 log.
  - cbn. by rewrite app_nil_r.
  - cbn [write_examples file_events]. unfold mbind, prog_bind, emit.
    rewrite IH. by rewrite <- !app_assoc.
Qed.

Lemma getExamples_total self :
  wf self → ∃ outcome, getExamples self = Some outcome.
Proof.
  intros Hwf.
  destruct (sample_input_nodes self) as [|root [|r2 rest]] eqn:Hroots.
  - exists (Ok []). unfold getExamples. by rewrite Hroots.
  - destruct (getExamples_single self root Hwf Hroots) as (t & _ & _ & ->).
    by eexists.
  - eexists. by eapply getExamples_many.
Qed.

Lemma file_events_lookup problem_dir i0 examples k input output :
  examples !! k = Some (input, output) →
  ∃ before after,
    file_events problem_dir i0 examples
    = before ++ [WriteInput problem_dir (i0 + k) input;
                 WriteOutput problem_dir (i0 + k) output] ++ after ∧
    length before = (2 * k)%nat.
Proof.
  revert i0 k. induction examples as [|ex examples IH]; intros i0 k Hk;
    [done|]. destruct k as [|k].
  - injection Hk as ->.
    exists [], (file_events problem_dir (S i0) examples).
    split; [|done]. cbn [file_events app fst snd]. by rewrite Nat.add_0_r.
  - destruct (IH (S i0) k Hk) as (before & after & Heq & Hlen).
    exists (WriteInput problem_dir i0 ex.1
            :: WriteOutput problem_dir i0 ex.2 :: before), after.
    split.
    + cbn [file_events app]. rewrite Heq.
      by replace (S i0 + k)%nat with (i0 + S k)%nat by lia.
    + cbn [length]. lia.
Qed.

Section Problem.

Variable name2codepoint : gmap str Z.
Variable lower : str → str.
Variable tokens : str → list token.
Variable urlopen : str → result str.

Local Abbreviation download :=
  (download_problem name2codepoint lower tokens urlopen).

(** [download_problem], branch by branch. *)
Lemma download_problem_eq contest_uri problem log :
  download contest_uri problem log =
    let problem_uri := contest_uri ++ py "/problem/" ++ problem in
    match urlopen problem_uri with
    | Raise e => (log ++ [Retrieving problem_uri], Raise e)
    | Ok html =>
        let log1 := log ++ [Retrieving problem_uri;
                            Retrieved problem (length html)] in
        match feed name2codepoint (tokens (patch html)) init with
        | Raise e => (log1 ++ [StderrDump (patch html)], Raise e)
        | Ok parser =>
            match default (Raise RecursionError) (getExamples parser) with
            | Raise e => (log1, Raise e)
            | Ok examples =>
                (log1 ++ EnsureDir (lower problem)
                   :: file_events (lower problem) 1 examples
                   ++ [Wrote (length examples) problem], Ok tt)
            end
        end
    end.
Proof.
  unfold download_problem, mbind, prog_bind, emit, lift, try_except.
  cbn zeta. destruct (urlopen _) as [html|e]; [|done].
  rewrite <- app_assoc. cbn [app].
  destruct (feed _ _ _) as [parser|e]; [|done].
  destruct (default _ _) as [examples|e]; [|done].
  rewrite write_examples_log. by rewrite <- !app_assoc.
Qed.

(** X11: the ways a problem fails. If its page cannot be retrieved,
    [download_problem] raises after the line that announces the
    retrieval; if the parse raises, it dumps the patched page to stderr
    and raises the same exception; if [getExamples] raises, it raises
    without a dump. In none of the three cases is a directory made or a
    file written. *)
Theorem download_problem_failure contest_uri problem log :
  let problem_uri := contest_uri ++ py "/problem/" ++ problem in
  (∀ e, urlopen problem_uri = Raise e →
     download contest_uri problem log
     = (log ++ [Retrieving problem_uri], Raise e)) ∧
  (∀ html e,
     urlopen problem_uri = Ok html →
     feed name2codepoint (tokens (patch html)) init = Raise e →
     download contest_uri problem log
     = (log ++ [Retrieving problem_uri; Retrieved problem (length html);
                StderrDump (patch html)], Raise e)) ∧
  (∀ html parser e,
     urlopen problem_uri = Ok html →
     feed name2codepoint (tokens (patch html)) init = Ok parser →
     getExamples parser = Some (Raise e) →
     download contest_uri problem log
     = (log ++ [Retrieving problem_uri; Retrieved problem (length html)],
        Raise e)).
Proof.
  intros problem_uri. repeat split.
  - intros e Hopen. rewrite download_problem_eq. cbn zeta.
    fold problem_uri. by rewrite Hopen.
  - intros html e Hopen Hfeed. rewrite download_problem_eq. cbn zeta.
    fold problem_uri. rewrite Hopen, Hfeed. by rewrite <- app_assoc.
  - intros html parser e Hopen Hfeed Hget. rewrite download_problem_eq.
    cbn zeta. fold problem_uri. by rewrite Hopen, Hfeed, Hget.
Qed.

(** X12: a problem that succeeds. When the page is retrieved and
    parsed, [getExamples] always has an outcome; when that outcome is a
    list of examples, [download_problem] makes sure of the directory named
    by the lower-cased problem, writes the input and the output of the
    [k]-th example, counted from 1, in the order of the list, and reports
    their number. *)
Theorem download_problem_success contest_uri problem log html parser :
  let problem_uri := contest_uri ++ py "/problem/" ++ problem in
  urlopen problem_uri = Ok html →
  feed name2codepoint (tokens (patch html)) init = Ok parser →
  (∃ outcome, getExamples parser = Some outcome) ∧
  ∀ examples, getExamples parser = Some (Ok examples) →
    download contest_uri problem log
    = (log ++ [Retrieving problem_uri; Retrieved problem (length html);
               EnsureDir (lower problem)]
           ++ file_events (lower problem) 1 examples
           ++ [Wrote (length examples) problem], Ok tt) ∧
    ∀ k input output, examples !! k = Some (input, output) →
      ∃ before after,
        file_events (lower problem) 1 examples
        = before ++ [WriteInput (lower problem) (S k) input;
                     WriteOutput (lower problem) (S k) output] ++ after ∧
        length before = (2 * k)%nat.
Proof.
  intros problem_uri Hopen Hfeed. split.
  - by eapply getExamples_total, wf_reachable.
  - intros examples Hget. split.
    + rewrite download_problem_eq. cbn zeta. fold problem_uri.
      rewrite Hopen, Hfeed, Hget. cbn [default id].
      by rewrite <- app_assoc.
    + intros k input output Hk.
      apply (file_events_lookup (lower problem) 1) in Hk. exact Hk.
Qed.

End Problem.

Lemma download_problem_failure_witness :
  download_problem ∅ ascii_lower failing_tokens failing_urlopen
    failing_contest_uri (py "C") []
  = ([Retrieving (py "http://codeforces.com/contest/1/problem/C")],
     Raise OSError).
Proof.
  destruct (download_problem_failure ∅ ascii_lower failing_tokens
              failing_urlopen failing_contest_uri (py "C") [])
    as (Hfetch & _ & _).
  apply Hfetch. vm_compute. reflexivity.
Defined.

Lemma download_problem_success_witness :
  download_problem ∅ ascii_lower failing_tokens failing_urlopen
    failing_contest_uri (py "B") []
  = ([ Retrieving (py "http://codeforces.com/contest/1/problem/B");
       Retrieved (py "B") (length failing_html_B);
       EnsureDir (py "b");
       WriteInput (py "b") 1 (py "1 2");
       WriteOutput (py "b") 1 (py "3");
       Wrote 1 (py "B") ], Ok tt).
Proof.
  destruct (download_problem_success ∅ ascii_lower failing_tokens
              failing_urlopen failing_contest_uri (py "B") []
              failing_html_B sample_page_final) as [_ Hrun];
    [vm_compute; reflexivity..|].
  destruct (Hrun [(py "1 2", py "3")]) as [-> _];
    [vm_compute; reflexivity|].
  vm_compute. reflexivity.
Defined.

(** ** The whole run *)

Lemma retrievals_app log1 log2 :
  retrievals (log1 ++ log2) = retrievals log1 ++ retrievals log2.
Proof. apply omap_app. Qed.

Lemma retrievals_file_events problem_dir i0 examples :
  retrievals (file_events problem_dir i0 examples) = [].
Proof.
  revert i0. induction examples as [|ex examples IH]; intros i0; [done|].
  cbn [file_events]. apply IH.
Qed.

Section Run.

Variable name2codepoint : gmap str Z.
Variables is_digit is_word : Z → bool.
Variable lower : str → str.
Variable tokens : str → list token.
Variable urlopen : str → result str.

Local Abbreviation download :=
  (download_problem name2codepoint lower tokens urlopen).
Local Abbreviation run :=
  (main name2codepoint is_digit is_word lower tokens urlopen).

Lemma download_problem_retrievals contest_uri problem log :
  retrievals (download contest_uri problem log).1
  = retrievals log ++ [contest_uri ++ py "/problem/" ++ problem].
Proof.
  rewrite download_problem_eq. cbn zeta.
  destruct (urlopen _) as [html|e];
    [|cbn [fst]; by rewrite retrievals_app].
  destruct (feed _ _ _) as [parser|e];
    [|cbn [fst]; rewrite <- app_assoc, retrievals_app; reflexivity].
  destruct (default _ _) as [examples|e];
    [|cbn [fst]; by rewrite retrievals_app].
  cbn [fst]. rewrite <- app_assoc, retrievals_app. f_equal. cbn [app].
  change (retrievals (Retrieving ?u :: Retrieved ?p ?n :: EnsureDir ?d :: ?l))
    with (u :: retrievals l).
  by rewrite retrievals_app, retrievals_file_events.
Qed.

Lemma fan_out_retrievals contest_uri problems log :
  retrievals
    (for_each (λ problem, submit (download contest_uri problem))
       problems log).1
  = retrievals log
    ++ ((λ problem, contest_uri ++ py "/problem/" ++ problem) <$> problems).
Proof.
  revert log. induction problems as [|p problems IH]; intros log.
  - cbn. by rewrite app_nil_r.
  - cbn [for_each fmap list_fmap]. unfold mbind, prog_bind, submit at 1.
    rewrite IH, download_problem_retrievals. by rewrite <- app_assoc.
Qed.

(** X13: the exit status tells whether the contest page was retrieved
    and nothing else. If its retrieval raises, the run stops there,
    reports the exception and returns status 1 without asking for any
    problem; if it succeeds, the status is 0 whatever happens to the
    problems. *)
Theorem main_status contest_uri :
  (∀ e, urlopen contest_uri = Raise e →
     run contest_uri = ([RetrievingContest contest_uri; Traceback e], 1)) ∧
  (∀ contest_html, urlopen contest_uri = Ok contest_html →
     (run contest_uri).2 = 0).
Proof.
  split.
  - intros e Hopen. unfold main, scrape, mbind, prog_bind, emit, lift.
    by rewrite Hopen.
  - intros contest_html Hopen. by eapply main_exit_status.
Qed.

Lemma scrape_retrievals contest_uri contest_html :
  urlopen contest_uri = Ok contest_html →
  retrievals (run contest_uri).1
  = (λ problem, contest_uri ++ py "/problem/" ++ problem) <$>
      ContestHTMLParser.getProblems
        (ContestHTMLParser.feed is_digit is_word (tokens contest_html)
           ContestHTMLParser.init).
Proof.
  intros Hopen.
  pose proof (main_exit_status name2codepoint is_digit is_word lower tokens
                urlopen contest_uri contest_html Hopen) as Hstatus.
  revert Hstatus. unfold main.
  destruct (scrape _ _ _ _ _ _ _ _) as [log [[]|e]] eqn:Hscrape;
    [intros _|by intros [=]].
  apply (f_equal fst) in Hscrape. cbn [fst] in *. rewrite <- Hscrape.
  unfold scrape, mbind, prog_bind, emit, lift. rewrite Hopen.
  apply (fan_out_retrievals contest_uri).
Qed.

Lemma getProblems_NoDup self :
  NoDup (ContestHTMLParser.getProblems self).
Proof.
  unfold ContestHTMLParser.getProblems.
  rewrite merge_sort_Permutation. apply NoDup_elements.
Qed.

(** X14: once the contest page is retrieved, the pages the run asks
    for are those of the problems that [getProblems] lists, each at the
    address [contest_uri/problem/id]: every listed problem is asked for,
    no address is asked for twice, and no other page is asked for. *)
Theorem main_retrievals contest_uri contest_html :
  urlopen contest_uri = Ok contest_html →
  retrievals (run contest_uri).1
  ≡ₚ (λ problem, contest_uri ++ py "/problem/" ++ problem) <$>
       ContestHTMLParser.getProblems
         (ContestHTMLParser.feed is_digit is_word (tokens contest_html)
            ContestHTMLParser.init) ∧
  NoDup (retrievals (run contest_uri).1).
Proof.
  intros Hopen. rewrite (scrape_retrievals _ _ Hopen). split; [done|].
  apply NoDup_fmap_2; [|apply getProblems_NoDup].
  intros p q Heq. by apply app_inv_head, app_inv_head in Heq.
Qed.

End Run.

Lemma main_status_witness :
  main ∅ ascii_digit ascii_word ascii_lower failing_tokens failing_urlopen
    (py "http://codeforces.com/contest/2")
  = ([RetrievingContest (py "http://codeforces.com/contest/2");
      Traceback OSError], 1).
Proof.
  destruct (main_status ∅ ascii_digit ascii_word ascii_lower failing_tokens
              failing_urlopen (py "http://codeforces.com/contest/2"))
    as [Hfail _].
  apply Hfail. vm_compute. reflexivity.
Defined.

Lemma main_retrievals_witness :
  retrievals
    (main ∅ ascii_digit ascii_word ascii_lower failing_tokens failing_urlopen
       failing_contest_uri).1
  ≡ₚ [py "http://codeforces.com/contest/1/problem/A";
      py "http://codeforces.com/contest/1/problem/B"].
Proof.
  destruct (main_retrievals ∅ ascii_digit ascii_word ascii_lower
              failing_tokens failing_urlopen failing_contest_uri
              failing_contest_html) as [Hperm _];
    [vm_compute; reflexivity|].
  etrans; [exact Hperm|]. clear Hperm.
  assert (Heq : (λ problem, failing_contest_uri ++ py "/problem/" ++ problem)
                <$> ContestHTMLParser.getProblems
                      (ContestHTMLParser.feed ascii_digit ascii_word
                         (failing_tokens failing_contest_html)
                         ContestHTMLParser.init)
                = [py "http://codeforces.com/contest/1/problem/A";
                   py "http://codeforces.com/contest/1/problem/B"])
    by (vm_compute; reflexivity).
  by rewrite Heq.
Defined.

(** ** Well-nested markup *)

Lemma html_rect' (P : html → Prop) :
  (∀ s, P (Text s)) →
  (∀ tag attrs body, Forall P body → P (Element tag attrs body)) →
  ∀ h, P h.
Proof.
  intros Htext Helem. fix IH 1. intros [s|tag attrs body]; [apply Htext|].
  apply Helem. induction body as [|h body IHbody]; constructor;
    [apply IH|apply IHbody].
Qed.

Lemma tree_of_node self r nd ts :
  wf self →
  store self !! r = Some nd →
  Forall2 (λ c t, tree_of (length (store self)) (store self) c = Some t)
    (children nd) ts →
  tree_of (length (store self)) (store self) r
  = Some (T (tag nd) (data nd) ts).
Proof.
  intros Hwf Hnd Hts.
  destruct (tree_of_total (store self) (length (store self)) r) as [t Ht].
  - by destruct Hwf.
  - by eapply lookup_lt_Some.
  - lia.
  - rewrite Ht. f_equal.
    apply (tree_of_mono _ (S (length (store self)))) in Ht; [|lia].
    cbn [tree_of] in Ht. rewrite Hnd in Ht. cbn [mbind option_bind] in Ht.
    apply mapM_Some in Hts. rewrite Hts in Ht. cbn [mbind option_bind] in Ht.
    by injection Ht as <-.
Qed.

Lemma builds_refl self top n :
  store self !! top = Some n → builds self self top n [] [].
Proof.
  intros Hn. repeat split; try done. exists []. split; [|constructor].
  rewrite Hn, !app_nil_r. by destruct n.
Qed.

Lemma builds_trans self self1 self2 top n txt1 txt2 trees1 trees2 :
  wf self1 → (top < length (store self))%nat →
  builds self self1 top n txt1 trees1 →
  (∀ n1, store self1 !! top = Some n1 →
         builds self1 self2 top n1 txt2 trees2) →
  builds self self2 top n (txt1 ++ txt2) (trees1 ++ trees2).
Proof.
  intros Hwf1 Htop (Hst1 & Hrec1 & Hro1 & Hlen1 & Hfr1 & refs1 & Hn1 & Ht1) H2.
  destruct (H2 _ Hn1) as (Hst2 & Hrec2 & Hro2 & Hlen2 & Hfr2 & refs2 & Hn2 & Ht2).
  cbn [tag attrs children data] in Hn2.
  split; [congruence|]. split; [congruence|]. split; [congruence|].
  split; [lia|]. split.
  - intros i Hi Hne. rewrite Hfr2 by (done || lia). by apply Hfr1.
  - exists (refs1 ++ refs2). split; [by rewrite Hn2, !app_assoc|].
    apply Forall2_app.
    + eapply Forall2_impl; [exact Ht1|]. intros r t [Hr Hrt]. split; [done|].
      apply (tree_of_mono (length (store self1))); [|done].
      apply (tree_of_frame _ (store self1)); [|
        |done].
      * by apply wf_children_increasing.
      * intros i Hri Hi. apply Hfr2; [done|lia].
    + eapply Forall2_impl; [exact Ht2|]. intros r t [Hr Hrt].
      split; [lia|done].
Qed.

Section Builder.

Variable name2codepoint : gmap str Z.

Local Abbreviation reads := (reads name2codepoint).

Lemma reads_nil : reads [] [] [].
Proof.
  intros self top n Hwf Hrec Htop Hn. exists self.
  split; [done|]. split; [done|]. by apply builds_refl.
Qed.

Lemma reads_app toks1 toks2 txt1 txt2 trees1 trees2 :
  reads toks1 txt1 trees1 → reads toks2 txt2 trees2 →
  reads (toks1 ++ toks2) (txt1 ++ txt2) (trees1 ++ trees2).
Proof.
  intros H1 H2 self top n Hwf Hrec Htop Hn.
  destruct (H1 self top n Hwf Hrec Htop Hn) as (self1 & Hf1 & Hwf1 & Hb1).
  pose proof Hb1 as (Hst1 & Hrec1 & _ & _ & _ & refs1 & Hn1 & _).
  destruct (H2 self1 top _ Hwf1 ltac:(congruence) ltac:(congruence) Hn1)
    as (self2 & Hf2 & Hwf2 & Hb2).
  exists self2. split; [|split; [done|]].
  - rewrite feed_app, Hf1. exact Hf2.
  - eapply builds_trans; [exact Hwf1|by eapply lookup_lt_Some|exact Hb1|].
    intros n1 Hn1'. rewrite Hn1 in Hn1'. by injection Hn1' as <-.
Qed.

Lemma reads_text s : reads [Data s] s [].
Proof.
  intros self top n Hwf Hrec Htop Hn.
  exists (update top (append_data s) self).
  split; [|split].
  - cbn [feed handle]. by rewrite (handle_data_recording s self top).
  - by apply wf_update.
  - split; [done|]. split; [done|]. split; [done|]. cbn [update store].
    rewrite length_alter. split; [done|]. split.
    + intros i _ Hne. by rewrite list_lookup_alter_ne.
    + exists []. split; [|constructor].
      by rewrite list_lookup_alter_eq, Hn, app_nil_r.
Qed.

Lemma reads_element tg ats toks txt trees b :
  sample_input_div tg (dict ats) = Ok b →
  reads toks txt trees →
  reads (StartTag tg ats :: toks ++ [EndTag tg])
    (if bool_decide (tg = py "br") then [10] else [])
    (if bool_decide (tg = py "br") then [] else [T tg txt trees]).
Proof.
  intros Hb Hbody self top n Hwf Hrec Htop Hn.
  destruct (starttag_while_recording tg ats self top n b Hrec Htop Hn Hb)
    as (self1 & Hstart & Hst1 & Hrec1 & Hro1 & Hlen1 & Hnode1 & Htop1 & Hfr1).
  cbn zeta in *. set (node := length (store self)) in *.
  pose proof (wf_handle_starttag _ _ _ _ Hwf Hstart) as Hwf1.
  destruct (Hbody self1 node (mkNode tg (dict ats) [] []) Hwf1 Hrec1)
    as (self2 & Hfeed2 & Hwf2 & Hst2 & Hrec2 & Hro2 & Hlen2 & Hfr2
        & refs & Hnode2 & Htrees); [by rewrite Hst1, last_snoc|done|].
  cbn [tag attrs children data app] in Hnode2.
  assert (Hlt : (top < node)%nat) by (by eapply lookup_lt_Some).
  assert (Hend : handle_endtag tg self2
                 = Ok (mkProblemHTMLParser (store self2) (stack self)
                         (sample_input_nodes self2) true)).
  { unfold handle_endtag. rewrite Hrec2, Hrec1, Hst2, Hst1.
    rewrite last_snoc, removelast_last.
    apply last_Some in Htop as [below ->]. by destruct below. }
  eexists. split; [|split].
  - cbn [feed handle]. rewrite Hstart. cbn [mbind result_bind].
    rewrite feed_app, Hfeed2. cbn [mbind result_bind feed handle].
    rewrite Hend. reflexivity.
  - by eapply wf_handle_endtag.
  - unfold builds. cbn [stack recording sample_input_nodes store].
    split; [done|]. split; [by rewrite Hrec|]. split; [congruence|].
    split; [lia|]. split.
    + intros i Hi Hne. rewrite Hfr2 by (lia || done). apply Hfr1; [done|].
      unfold node. lia.
    + assert (Htop2 : store self2 !! top = store self1 !! top)
        by (apply Hfr2; lia).
      rewrite Htop2, Htop1. case_bool_decide as Hbr.
      * exists []. split; [|constructor].
        unfold append_data. by rewrite app_nil_r.
      * exists [node]. split; [unfold append_child; by rewrite app_nil_r|].
        constructor; [|constructor]. split; [done|].
        apply (tree_of_node self2 node _ trees Hwf2 Hnode2).
        cbn [children]. eapply Forall2_impl; [exact Htrees|].
        by intros r t [_ ?].
Qed.

Lemma omap_node_of_cons h body :
  omap node_of (h :: body) = option_list (node_of h) ++ omap node_of body.
Proof. cbn [omap list_omap]. by destruct (node_of h). Qed.

(** A piece of accepted markup adds its text and its node to the node
    on top of the stack and leaves the stack as it found it. *)
Lemma reads_html h :
  accepted h = true →
  reads (events h) (item_text h) (option_list (node_of h)).
Proof.
  induction h as [s|tag attrs body IH] using html_rect'; intros Hacc.
  - apply reads_text.
  - cbn [accepted] in Hacc.
    destruct (sample_input_div tag (dict attrs)) as [b|e] eqn:Hb; [|done].
    assert (Hbody : reads (concat (map events body)) (text_in body)
                      (omap node_of body)).
    { clear Hb. induction IH as [|h body Hh _ IHbody].
      - apply reads_nil.
      - cbn [forallb] in Hacc. apply andb_prop in Hacc as [Hh' Hbody'].
        rewrite omap_node_of_cons. unfold text_in.
        cbn [map concat fmap list_fmap].
        apply reads_app; [by apply Hh|by apply IHbody]. }
    pose proof (reads_element tag attrs _ _ _ b Hb Hbody) as Hel.
    cbn [events item_text node_of].
    by destruct (bool_decide (tag = py "br")).
Qed.

Lemma reads_body body :
  forallb accepted body = true →
  reads (concat (map events body)) (text_in body) (omap node_of body).
Proof.
  induction body as [|h body IH]; intros Hacc.
  - apply reads_nil.
  - cbn [forallb] in Hacc. apply andb_prop in Hacc as [Hh Hbody].
    rewrite omap_node_of_cons. unfold text_in.
    cbn [map concat fmap list_fmap].
    apply reads_app; [by apply reads_html|by apply IH].
Qed.

Lemma region_tree toks self ats body :
  feed name2codepoint toks init = Ok self →
  stack self = [] →
  sample_input_div (py "div") (dict ats) = Ok true →
  forallb accepted body = true →
  ∃ self',
    feed name2codepoint (events (Element (py "div") ats body)) self
      = Ok self' ∧
    stack self' = [] ∧ recording self' = false ∧
    sample_input_nodes self'
      = sample_input_nodes self ++ [length (store self)] ∧
    tree_of (length (store self')) (store self') (length (store self))
      = Some (T (py "div") (text_in body) (omap node_of body)).
Proof.
  intros Hreach Hstack Hdiv Hacc. apply wf_reachable in Hreach as Hwf.
  set (node := length (store self)).
  set (new := mkNode (py "div") (dict ats) [] []).
  set (self1 := mkProblemHTMLParser (store self ++ [new]) [node]
                  (sample_input_nodes self) true).
  assert (Hstart : handle_starttag (py "div") ats self = Ok self1).
  { rewrite handle_starttag_eq, Hdiv. cbn [mbind result_bind].
    rewrite orb_true_r. unfold store_after_starttag.
    by rewrite Hstack. }
  pose proof (wf_handle_starttag _ _ _ _ Hwf Hstart) as Hwf1.
  destruct (reads_body body Hacc self1 node new Hwf1 eq_refl eq_refl)
    as (self2 & Hfeed2 & Hwf2 & Hst2 & Hrec2 & Hro2 & Hlen2 & Hfr2
        & refs & Hnode2 & Htrees).
  { cbn [self1 store]. rewrite lookup_app_r by done.
    by rewrite Nat.sub_diag. }
  cbn [self1 stack recording sample_input_nodes store new
       tag attrs children data app] in *.
  set (self3 := mkProblemHTMLParser (store self2) []
                  (sample_input_nodes self ++ [node]) false).
  assert (Hend : handle_endtag (py "div") self2 = Ok self3).
  { unfold handle_endtag. rewrite Hrec2, Hst2. cbn [last removelast].
    unfold self3. by rewrite Hro2. }
  exists self3. split; [|split; [done|split; [done|split; [done|]]]].
  - cbn [events feed handle]. rewrite Hstart. cbn [mbind result_bind].
    rewrite feed_app, Hfeed2. cbn [mbind result_bind feed handle].
    by rewrite Hend.
  - pose proof (wf_handle_endtag _ _ _ Hwf2 Hend) as Hwf3.
    apply (tree_of_node self3 node _ _ Hwf3 Hnode2).
    cbn [children self3 store]. eapply Forall2_impl; [exact Htrees|].
    by intros r t [_ ?].
Qed.

(** X15: a well-nested sample container is recorded as the tree of its
    markup. From a reachable state with an empty stack, the markup of a
    [div] whose class test holds and whose body is accepted is read
    without an exception, leaves the stack empty and the recording off,
    and adds one completed root; the tree below that root has, at every
    node, the tag of the element, the text that stands directly in the
    element (with a newline for each [br]) and the nodes of the elements
    in it other than [br], in document order. *)
Theorem sample_region_tree toks self ats body :
  feed name2codepoint toks init = Ok self →
  stack self = [] →
  sample_input_div (py "div") (dict ats) = Ok true →
  forallb accepted body = true →
  ∃ self',
    feed name2codepoint (events (Element (py "div") ats body)) self
      = Ok self' ∧
    stack self' = [] ∧ recording self' = false ∧
    sample_input_nodes self'
      = sample_input_nodes self ++ [length (store self)] ∧
    tree_of (length (store self')) (store self') (length (store self))
      = Some (T (py "div") (text_in body) (omap node_of body)).
Proof. apply region_tree. Qed.

End Builder.

Lemma sample_region_tree_witness :
  ∃ self',
    feed ∅ (events sample_markup) init = Ok self' ∧
    sample_input_nodes self' = [0%nat] ∧
    tree_of (length (store self')) (store self') 0
    = Some (T (py "div") []
              [T (py "div") []
                 [T (py "pre") (py "3" ++ [10] ++ py "1 2 3") [];
                  T (py "pre") (py "6") []]]).
Proof.
  destruct (sample_region_tree ∅ [] init
              [(py "class", Some (py "sample-tests"))]
              [ Element (py "div") [(py "class", Some (py "sample-test"))]
                  [ Element (py "pre") []
                      [Text (py "3"); Element (py "br") [] [];
                       Text (py "1 2 3")];
                    Element (py "pre") [] [Text (py "6")] ] ])
    as (self' & Hfeed & _ & _ & Hroots & Htree);
    [reflexivity|reflexivity|vm_compute; reflexivity
    |vm_compute; reflexivity|].
  exists self'. split; [exact Hfeed|]. split; [exact Hroots|].
  change (length (store init)) with 0%nat in Htree.
  rewrite Htree. vm_compute. reflexivity.
Defined.

(** X16: the harvest of a page with one well-nested sample container.
    If no start tag before or after the container passes the class test,
    the container's body is accepted and the parse returns, then
    [getExamples] depends on the markup of the container alone: it pairs
    up the texts of the [pre] nodes of the container's tree that are not
    inside another [pre], and raises the assertion error when their
    number is odd. *)
Theorem getExamples_of_page name2codepoint before ats body after self :
  (∀ tag attrs, StartTag tag attrs ∈ before ++ after →
     sample_input_div tag (dict attrs) ≠ Ok true) →
  sample_input_div (py "div") (dict ats) = Ok true →
  forallb accepted body = true →
  feed name2codepoint
    (before ++ events (Element (py "div") ats body) ++ after) init
    = Ok self →
  let pre_datas :=
    outer_pre_texts (T (py "div") (text_in body) (omap node_of body)) in
  getExamples self
  = Some (if bool_decide ((length pre_datas `mod` 2)%nat = 0%nat)
          then Ok (pairs pre_datas)
          else Raise (AssertionError None)).
Proof.
  intros Hplain Hdiv Hacc Hfeed pre_datas.
  rewrite feed_app in Hfeed.
  destruct (feed name2codepoint before init) as [s0|e] eqn:Hbefore;
    [|done]. cbn [mbind result_bind] in Hfeed.
  apply feed_not_recording in Hbefore as ->; [|done|];
    [|intros tag attrs Hin; apply Hplain, elem_of_app; by left].
  destruct (region_tree name2codepoint [] init ats body
              eq_refl eq_refl Hdiv Hacc)
    as (self1 & Hregion & Hst1 & Hrec1 & Hroots1 & Htree1).
  rewrite feed_app, Hregion in Hfeed. cbn [mbind result_bind] in Hfeed.
  apply feed_not_recording in Hfeed as ->; [|done|];
    [|intros tag attrs Hin; apply Hplain, elem_of_app; by right].
  assert (Hwf1 : wf self1).
  { eapply wf_feed; [apply wf_init|exact Hregion]. }
  destruct (getExamples_single self1 0%nat Hwf1 Hroots1)
    as (t & Ht & _ & ->).
  cbn [init store length] in Htree1. rewrite Htree1 in Ht.
  by injection Ht as <-.
Qed.

Lemma getExamples_of_page_witness :
  ∃ self,
    feed ∅ (plain_page ++ events sample_markup ++ plain_page) init
      = Ok self ∧
    getExamples self = Some (Ok [(py "3" ++ [10] ++ py "1 2 3", py "6")]).
Proof.
  unfold sample_markup.
  destruct (feed ∅ (plain_page ++ events _ ++ plain_page) init)
    as [self|e] eqn:Hfeed; [|vm_compute in Hfeed; discriminate Hfeed].
  exists self. split; [reflexivity|].
  eapply getExamples_of_page in Hfeed as Hget.
  - rewrite Hget. vm_compute. reflexivity.
  - clear. intros tag attrs Hin. apply elem_of_app in Hin as [Hin|Hin];
      repeat (apply elem_of_cons in Hin as [Heq|Hin];
              [try discriminate Heq; injection Heq as -> ->;
               vm_compute; intros Hne; discriminate Hne|]);
      by apply elem_of_nil in Hin.
  - vm_compute. reflexivity.
  - vm_compute. reflexivity.
Defined.

(** ** A line break without its end tag *)

(** X17: text that follows a [br] start tag with no end tag is lost.
    In a reachable recording state the [br] start tag adds the newline to
    the node on top of the stack and goes onto the stack itself; the
    text that follows is appended to the [br] node, and no node has the
    [br] node as a child. *)
Theorem text_after_open_br name2codepoint toks self top n ats d :
  feed name2codepoint toks init = Ok self →
  last (stack self) = Some top →
  store self !! top = Some n →
  ∃ self',
    feed name2codepoint [StartTag (py "br") ats; Data d] self = Ok self' ∧
    store self' !! top = Some (append_data [10] n) ∧
    last (stack self') = Some (length (store self)) ∧
    store self' !! length (store self)
      = Some (mkNode (py "br") (dict ats) [] d) ∧
    ∀ i nd, store self' !! i = Some nd → length (store self) ∉ children nd.
Proof.
  intros Hreach Htop Hn. apply wf_reachable in Hreach as Hwf.
  assert (Hrec : recording self = true).
  { apply Hwf. intros Hnil. by rewrite Hnil in Htop. }
  destruct (starttag_while_recording (py "br") ats self top n false
              Hrec Htop Hn eq_refl)
    as (self1 & Hstart & Hst1 & Hrec1 & Hro1 & Hlen1 & Hnode1 & Htop1 & Hfr1).
  cbn zeta in *. set (node := length (store self)) in *.
  assert (Hlast1 : last (stack self1) = Some node)
    by (by rewrite Hst1, last_snoc).
  assert (Hlt : (top < node)%nat) by (by eapply lookup_lt_Some).
  exists (update node (append_data d) self1).
  split; [|split; [|split; [|split]]].
  - cbn [feed handle]. rewrite Hstart. cbn [mbind result_bind].
    by rewrite (handle_data_recording d self1 node).
  - cbn [update store]. rewrite list_lookup_alter_ne by lia. exact Htop1.
  - done.
  - cbn [update store]. by rewrite list_lookup_alter_eq, Hnode1.
  - pose proof (wf_handle_starttag _ _ _ _ Hwf Hstart) as Hwf1.
    pose proof (wf_update node (append_data d) self1 (λ _, eq_refl) Hwf1)
      as [_ _ _ Hch].
    intros i nd Hnd Hin.
    pose proof (Hch i nd Hnd) as Hall.
    eapply Forall_forall in Hall; [|exact Hin].
    cbn [update store] in Hall, Hnd. rewrite length_alter in Hall.
    assert (Hi : (i < node)%nat) by lia.
    destruct (decide (i = top)) as [->|Hne].
    + rewrite list_lookup_alter_ne, Htop1 in Hnd by lia.
      injection Hnd as <-. cbn [append_data children] in Hin.
      destruct Hwf as [_ _ _ Hch0].
      pose proof (Hch0 top n Hn) as Hall0.
      eapply Forall_forall in Hall0; [|exact Hin]. unfold node in Hall0. lia.
    + rewrite list_lookup_alter_ne, Hfr1 in Hnd by lia.
      destruct Hwf as [_ _ _ Hch0].
      pose proof (Hch0 i nd Hnd) as Hall0.
      eapply Forall_forall in Hall0; [|exact Hin]. unfold node in Hall0. lia.
Qed.

Lemma text_after_open_br_witness :
  ∃ self',
    feed ∅ [StartTag (py "br") []; Data (py "1 2 3")] open_sample_div
      = Ok self' ∧
    store self' !! 0%nat
      = Some (mkNode (py "div") {[ py "class" := Some (py "sample-test") ]}
                [] [10]).
Proof.
  destruct (text_after_open_br ∅ _ _ 0%nat
              (mkNode (py "div") {[ py "class" := Some (py "sample-test") ]}
                 [] []) [] (py "1 2 3") open_sample_div_reached)
    as (self' & Hfeed & Htop & _); [reflexivity..|].
  exists self'. split; [exact Hfeed|exact Htop].
Defined.
